(** * Polycom SoundStructure companion module: connection manager and line decoder

    A shallow embedding of [src/main.js] (class [ModuleInstance]) and of the
    JavaScript built-ins its methods call, followed by the properties of the
    natural-language specification that were checked against it. *)

From Stdlib Require Import ZArith NArith Ascii String.
From stdpp Require Import base option list gmap.

(** ** JavaScript values used by the module *)

Module JS.

(** A JavaScript string is a sequence of UTF-16 code units. *)
Abbreviation jsstring := (list N).

(** The code units of an ASCII literal. *)
Definition lit (s : string) : jsstring := N_of_ascii <$> list_ascii_of_string s.

(** The double quote character and the line terminator of the device. *)
Definition dq : jsstring := [34%N].
Definition crlf : jsstring := [13%N; 10%N].

(** ECMAScript [LineTerminator]: LF, CR, LS, PS. *)
Definition isLineTerminator (c : N) : bool :=
  ((c =? 10) || (c =? 13) || (c =? 8232) || (c =? 8233))%N.

(** ECMAScript [WhiteSpace]: TAB, VT, FF, ZWNBSP and the space separators. *)
Definition isWhiteSpace (c : N) : bool :=
  ((c =? 9) || (c =? 11) || (c =? 12) || (c =? 32) || (c =? 160)
   || (c =? 5760) || ((8192 <=? c) && (c <=? 8202)) || (c =? 8239)
   || (c =? 8287) || (c =? 12288) || (c =? 65279))%N.

Definition isStrWhiteSpaceChar (c : N) : bool :=
  isWhiteSpace c || isLineTerminator c.

(** [String.prototype.trimStart], [trimEnd] and [trim]. *)
Fixpoint trimStart (s : jsstring) : jsstring :=
  match s with
  | c :: s' => if isStrWhiteSpaceChar c then trimStart s' else s
  | [] => []
  end.

Definition trimEnd (s : jsstring) : jsstring := rev (trimStart (rev s)).

Definition trim (s : jsstring) : jsstring := trimEnd (trimStart s).

(** [s.startsWith(p)]. *)
Fixpoint startsWith (p s : jsstring) : bool :=
  match p, s with
  | [], _ => true
  | _ :: _, [] => false
  | a :: p', b :: s' => (a =? b)%N && startsWith p' s'
  end.

(** [s.substring(n)] for [0 <= n]. *)
Definition substring (n : nat) (s : jsstring) : jsstring := drop n s.

(** [s.split(sep)] for a separator of one code unit: the result always has
    a first element, and an empty string splits into one empty string. *)
Fixpoint split (sep : N) (s : jsstring) : jsstring * list jsstring :=
  match s with
  | [] => ([], [])
  | c :: s' =>
      let '(x, xs) := split sep s' in
      if (c =? sep)%N then ([], x :: xs) else (c :: x, xs)
  end.

Definition split_list (sep : N) (s : jsstring) : list jsstring :=
  let '(x, xs) := split sep s in x :: xs.

(** [s.replace(re, '')] where [re] is the global pattern of one double
    quote: every double quote is removed. *)
Definition remove_quotes (s : jsstring) : jsstring :=
  filter (λ c, c ≠ 34%N) s.

(** [String(v)] for a value that is a string or [undefined]. *)
Definition ToString (v : option jsstring) : jsstring :=
  match v with
  | Some s => s
  | None => lit "undefined"
  end.

(** JavaScript truthiness of a value that is a string or [undefined]. *)
Definition truthy (v : option jsstring) : bool :=
  match v with
  | Some (_ :: _) => true
  | _ => false
  end.

(** The Number values [parseInt] can return: NaN, an infinity, or a signed
    integer (the sign is kept apart, so that [-0] is represented). *)
Inductive Number :=
| NaN
| Infinity (neg : bool)
| Int (neg : bool) (mag : N).

#[global] Instance Number_eq_dec : EqDecision Number.
Proof. solve_decision. Defined.

(** Round a natural number to the nearest IEEE-754 double, ties to even;
    [None] when the result overflows to infinity. *)
Definition toDouble (n : N) : option N :=
  let bits := N.size n in
  if (bits <=? 53)%N then Some n
  else
    let e := (bits - 53)%N in
    let q := N.shiftr n e in
    let r := N.land n (N.ones e) in
    let half := N.shiftl 1 (e - 1) in
    let q' := if ((half <? r) || ((r =? half) && N.odd q))%N
              then (q + 1)%N else q in
    let v := N.shiftl q' e in
    if (1024 <? N.size v)%N then None else Some v.

Definition digitValue (c : N) : option N :=
  if ((48 <=? c) && (c <=? 57))%N then Some (c - 48)%N else None.

(** The longest prefix of decimal digits, as digit values. *)
Fixpoint digits (s : jsstring) : list N :=
  match s with
  | c :: s' =>
      match digitValue c with
      | Some d => d :: digits s'
      | None => []
      end
  | [] => []
  end.

Definition mathInt (ds : list N) : N :=
  foldl (λ acc d, 10 * acc + d)%N 0%N ds.

(** [parseInt(value, 10)]: the argument is converted to a string, leading
    white space is skipped, one sign is read, and the longest run of decimal
    digits is the value; no digit gives NaN. *)
Definition parseInt (value : option jsstring) : Number :=
  let s := trimStart (ToString value) in
  let '(neg, s) :=
    match s with
    | c :: s' =>
        if (c =? 45)%N then (true, s')
        else if (c =? 43)%N then (false, s')
        else (false, s)
    | [] => (false, [])
    end in
  match digits s with
  | [] => NaN
  | ds =>
      match toDouble (mathInt ds) with
      | Some m => Int neg m
      | None => Infinity neg
      end
  end.

(** *** The two regular expressions, by backtracking *)

(** Match the literal [p] at the start of [s]; the rest of [s] on success. *)
Fixpoint match_lit (p s : jsstring) : option jsstring :=
  match p, s with
  | [], _ => Some s
  | _ :: _, [] => None
  | a :: p', b :: s' => if (a =? b)%N then match_lit p' s' else None
  end.

(** The greedy capture group (dot, star) followed by the continuation [k]: the dot takes
    any code unit but a line terminator, the longest capture is tried first
    and shorter ones on failure of [k]. *)
Fixpoint dot_star {R} (k : jsstring → jsstring → option R)
    (cap s : jsstring) : option R :=
  match s with
  | c :: s' =>
      if isLineTerminator c then k cap s
      else
        match dot_star k (cap ++ [c]) s' with
        | Some r => Some r
        | None => k cap s
        end
  | [] => k cap []
  end.

(** [re.exec(s)] for a pattern without anchors: the leftmost start wins. *)
Fixpoint exec {R} (m : jsstring → option R) (s : jsstring) : option R :=
  match m s with
  | Some r => Some r
  | None =>
      match s with
      | [] => None
      | _ :: s' => exec m s'
      end
  end.

(** The pattern of the mute branch at a fixed start: the word mute, a space,
    a double quote, the greedy group and a double quote. The result is
    capture 1. *)
Definition re_mute_at (s : jsstring) : option jsstring :=
  r ← match_lit (lit "mute " ++ dq) s;
  dot_star (λ cap r', match_lit dq r' ≫= λ _, Some cap) [] r.

Definition re_mute : jsstring → option jsstring := exec re_mute_at.

(** The pattern of the crosspoint branch at a fixed start: the word
    crosspoint_mute, a space, and two quoted greedy groups with one space
    between them. The result is captures 1 and 2. *)
Definition re_crosspoint_at (s : jsstring) : option (jsstring * jsstring) :=
  r ← match_lit (lit "crosspoint_mute " ++ dq) s;
  dot_star (λ cap1 r1,
    r2 ← match_lit (dq ++ lit " " ++ dq) r1;
    dot_star (λ cap2 r3, match_lit dq r3 ≫= λ _, Some (cap1, cap2)) [] r2)
    [] r.

Definition re_crosspoint : jsstring → option (jsstring * jsstring) :=
  exec re_crosspoint_at.

(** Assignment [o[key] = v] on an object created by [{}]: every key becomes
    an own property, except ["__proto__"], whose inherited setter ignores a
    value that is not an object. *)
Definition obj_set (key : jsstring) (v : Number)
    (o : gmap (list N) Number) : gmap (list N) Number :=
  if decide (key = lit "__proto__") then o else <[key := v]> o.

End JS.

(** ** The module instance *)

Module ModuleInstance.
Import JS.

(** The configuration object: both fields come from text inputs
    ([getConfigFields]), so each is a string or [undefined]. *)
Record Config := { host : option jsstring; port : option jsstring }.

(** A [TCPHelper] object of the host library, as far as the module sees it:
    whether [destroy()] was called on it and what [isConnected] reads. *)
Record TCPHelper := {
  tcp_host : option jsstring;
  tcp_port : option jsstring;
  destroyed : bool;
  isConnected : bool
}.

Inductive InstanceStatus := Ok | Error | Disconnected.

(** What the instance does to its surroundings, in order: calls of the
    [InstanceBase] methods, of the three definition loaders, and of the
    [TCPHelper] constructor and methods (sockets are named by address). *)
Inductive effect :=
| updateStatus (s : InstanceStatus) (msg : option jsstring)
| log (level : jsstring) (msg : jsstring)
| updateActions
| updateFeedbacks
| updateVariableDefinitions
| checkFeedbacks (id : jsstring)
| socket_new (a : nat) (h p : option jsstring)
| socket_destroy (a : nat)
| socket_send (a : nat) (msg : jsstring).

(** The fields of [this] set by the constructor and by [init], the heap of
    [TCPHelper] objects allocated so far ([socket] is null or the address of
    one of them), and the effects so far. *)
Record world := {
  socket : option nat;
  config : option Config;
  virtualChannels : list jsstring;
  presets : list jsstring;
  channelMuteStatus : gmap (list N) Number;
  crosspointMuteStatus : gmap (list N) Number;
  heap : list TCPHelper;
  trace : list effect
}.

(** The state right after the constructor. *)
Definition constructor : world := {|
  socket := None;
  config := None;
  virtualChannels := [];
  presets := [];
  channelMuteStatus := ∅;
  crosspointMuteStatus := ∅;
  heap := [];
  trace := []
|}.

Definition set_socket (s : option nat) (w : world) : world :=
  {| socket := s; config := config w;
     virtualChannels := virtualChannels w; presets := presets w;
     channelMuteStatus := channelMuteStatus w;
     crosspointMuteStatus := crosspointMuteStatus w;
     heap := heap w; trace := trace w |}.

Definition set_config (c : option Config) (w : world) : world :=
  {| socket := socket w; config := c;
     virtualChannels := virtualChannels w; presets := presets w;
     channelMuteStatus := channelMuteStatus w;
     crosspointMuteStatus := crosspointMuteStatus w;
     heap := heap w; trace := trace w |}.

Definition set_virtualChannels (l : list jsstring) (w : world) : world :=
  {| socket := socket w; config := config w;
     virtualChannels := l; presets := presets w;
     channelMuteStatus := channelMuteStatus w;
     crosspointMuteStatus := crosspointMuteStatus w;
     heap := heap w; trace := trace w |}.

Definition set_presets (l : list jsstring) (w : world) : world :=
  {| socket := socket w; config := config w;
     virtualChannels := virtualChannels w; presets := l;
     channelMuteStatus := channelMuteStatus w;
     crosspointMuteStatus := crosspointMuteStatus w;
     heap := heap w; trace := trace w |}.

Definition set_channelMuteStatus (m : gmap (list N) Number) (w : world) : world :=
  {| socket := socket w; config := config w;
     virtualChannels := virtualChannels w; presets := presets w;
     channelMuteStatus := m;
     crosspointMuteStatus := crosspointMuteStatus w;
     heap := heap w; trace := trace w |}.

Definition set_crosspointMuteStatus (m : gmap (list N) Number) (w : world) : world :=
  {| socket := socket w; config := config w;
     virtualChannels := virtualChannels w; presets := presets w;
     channelMuteStatus := channelMuteStatus w;
     crosspointMuteStatus := m;
     heap := heap w; trace := trace w |}.

Definition set_heap (h : list TCPHelper) (w : world) : world :=
  {| socket := socket w; config := config w;
     virtualChannels := virtualChannels w; presets := presets w;
     channelMuteStatus := channelMuteStatus w;
     crosspointMuteStatus := crosspointMuteStatus w;
     heap := h; trace := trace w |}.

Definition set_trace (t : list effect) (w : world) : world :=
  {| socket := socket w; config := config w;
     virtualChannels := virtualChannels w; presets := presets w;
     channelMuteStatus := channelMuteStatus w;
     crosspointMuteStatus := crosspointMuteStatus w;
     heap := heap w; trace := t |}.

(** *** Method bodies: state passing with JavaScript exceptions *)

(** A method body either completes normally or throws; the state it has
    reached is kept in both cases. The only exception the bodies of
    [main.js] can raise is the TypeError of reading a property of
    [undefined]. *)
Inductive completion (A : Type) :=
| Normal (a : A)
| Throw.
Arguments Normal {A} a.
Arguments Throw {A}.

Definition M (A : Type) : Type := world → completion A * world.

Definition ret {A} (a : A) : M A := λ w, (Normal a, w).

Definition bind {A B} (m : M A) (k : A → M B) : M B :=
  λ w, match m w with
       | (Normal a, w') => k a w'
       | (Throw, w') => (Throw, w')
       end.

Notation "x <- m ;; k" := (bind m (λ x, k))
  (at level 100, m at next level, right associativity).
Notation "m ;; k" := (bind m (λ _, k))
  (at level 100, right associativity).

Definition throw {A} : M A := λ w, (Throw, w).

Definition emit (e : effect) : M unit :=
  λ w, (Normal tt, set_trace (trace w ++ [e]) w).

Definition read {A} (f : world → A) : M A := λ w, (Normal (f w), w).

Definition write (f : world → world) : M unit := λ w, (Normal tt, f w).

(** [this.config]: reading a field of it throws while it is [undefined]. *)
Definition this_config : M Config :=
  c <- read config ;;
  match c with
  | Some c => ret c
  | None => throw
  end.

(** [new TCPHelper(host, port)]: a fresh object, not yet connected. *)
Definition new_TCPHelper (h p : option jsstring) : M nat :=
  a <- read (λ w, length (heap w)) ;;
  write (λ w, set_heap (heap w ++
    [{| tcp_host := h; tcp_port := p;
        destroyed := false; isConnected := false |}]) w) ;;
  emit (socket_new a h p) ;;
  ret a.

(** [socket.destroy()]: the helper drops its listeners and closes. *)
Definition TCPHelper_destroy (a : nat) : M unit :=
  write (λ w, set_heap (alter (λ t,
    {| tcp_host := tcp_host t; tcp_port := tcp_port t;
       destroyed := true; isConnected := false |}) a (heap w)) w) ;;
  emit (socket_destroy a).

(** [socket.isConnected]. *)
Definition TCPHelper_isConnected (a : nat) : M bool :=
  read (λ w, match heap w !! a with
             | Some t => isConnected t
             | None => false
             end).

(** *** The methods of [ModuleInstance] *)

(** [sendCommand(cmd)], lines 152-159. *)
Definition sendCommand (cmd : jsstring) : M unit :=
  s <- read socket ;;
  match s with
  | Some a =>
      c <- TCPHelper_isConnected a ;;
      if (c : bool) then
        emit (socket_send a (cmd ++ crlf)) ;;
        emit (log (lit "debug") (lit "Command sent: " ++ cmd))
      else emit (log (lit "error") (lit "Socket not connected"))
  | None => emit (log (lit "error") (lit "Socket not connected"))
  end.

(** [requestDeviceConfiguration()], lines 115-118. *)
Definition requestDeviceConfiguration : M unit :=
  sendCommand (lit "get virtual_channels") ;;
  sendCommand (lit "get presets").

(** [processDeviceData(data)], lines 121-149. The array pattern of lines
    130 and 138 takes the first element of the split and, when there is
    one, the second; otherwise [value] is [undefined]. *)
Definition processDeviceData (data : jsstring) : M unit :=
  emit (log (lit "debug") (lit "Data received: " ++ data)) ;;
  if startsWith (lit "virtual_channels=") data then
    write (set_virtualChannels
      (trim <$> split_list 44
         (substring (length (lit "virtual_channels=")) data))) ;;
    emit updateActions
  else if startsWith (lit "presets=") data then
    write (set_presets
      ((λ p, trim (remove_quotes p)) <$> split_list 44
         (substring (length (lit "presets=")) data))) ;;
    emit updateActions
  else if startsWith (lit "mute ") data then
    let '(info, rest) := split 61 data in
    let value := head rest in
    match re_mute info with
    | Some channel =>
        write (λ w, set_channelMuteStatus
          (obj_set channel (parseInt value) (channelMuteStatus w)) w) ;;
        emit (checkFeedbacks (lit "channelMuteStatus"))
    | None => ret tt
    end
  else if startsWith (lit "crosspoint_mute ") data then
    let '(info, rest) := split 61 data in
    let value := head rest in
    match re_crosspoint info with
    | Some (input, output) =>
        let key := input ++ lit ":" ++ output in
        write (λ w, set_crosspointMuteStatus
          (obj_set key (parseInt value) (crosspointMuteStatus w)) w) ;;
        emit (checkFeedbacks (lit "crosspointMuteStatus"))
    | None => ret tt
    end
  else ret tt.

(** [connectToDevice()], lines 82-112. The four [on] registrations attach
    the handlers below to the new socket. *)
Definition connectToDevice : M unit :=
  s <- read socket ;;
  match s with
  | Some a => TCPHelper_destroy a ;; write (set_socket None)
  | None => ret tt
  end ;;
  c <- this_config ;;
  if truthy (host c) && truthy (port c) then
    a <- new_TCPHelper (host c) (port c) ;;
    write (set_socket (Some a))
  else ret tt.

(** The listeners of lines 92-110. *)
Definition on_connect : M unit :=
  emit (updateStatus Ok None) ;;
  c <- this_config ;;
  emit (log (lit "info") (lit "Connected to SoundStructure at "
                  ++ ToString (host c) ++ lit ":" ++ ToString (port c))) ;;
  requestDeviceConfiguration.

Definition on_data (data : jsstring) : M unit := processDeviceData data.

Definition on_error (message : jsstring) : M unit :=
  emit (updateStatus Error (Some message)) ;;
  emit (log (lit "error") (lit "Connection error: " ++ message)).

Definition on_close : M unit :=
  emit (updateStatus Disconnected (Some (lit "Connection closed"))) ;;
  emit (log (lit "warn") (lit "Connection closed")).

(** [init(config)], lines 19-28. *)
Definition init (c : Config) : M unit :=
  write (set_config (Some c)) ;;
  emit (updateStatus Ok None) ;;
  connectToDevice ;;
  emit updateActions ;;
  emit updateFeedbacks ;;
  emit updateVariableDefinitions.

(** [destroy()], lines 31-37. *)
Definition destroy : M unit :=
  s <- read socket ;;
  match s with
  | Some a => TCPHelper_destroy a ;; write (set_socket None)
  | None => ret tt
  end ;;
  emit (log (lit "debug") (lit "Module instance destroyed")).

(** [configUpdated(config)], lines 40-43. *)
Definition configUpdated (c : Config) : M unit :=
  write (set_config (Some c)) ;;
  connectToDevice.

(** *** The event stream that drives an instance *)

(** What a socket can emit to its listeners. The text of a data event is
    the chunk after [toString()]. *)
Inductive socket_event :=
| ev_connect
| ev_data (data : jsstring)
| ev_error (message : jsstring)
| ev_close.

Definition set_isConnected (a : nat) (b : bool) : M unit :=
  write (λ w, set_heap (alter (λ t,
    {| tcp_host := tcp_host t; tcp_port := tcp_port t;
       destroyed := destroyed t; isConnected := b |}) a (heap w)) w).

(** A socket event reaches the listeners only while the helper has not been
    destroyed: [destroy()] removes them. A connect makes [isConnected] true
    before the listener runs, a close makes it false. *)
Definition deliver (a : nat) (ev : socket_event) : M unit :=
  λ w, match heap w !! a with
       | Some t =>
           if destroyed t then (Normal tt, w)
           else match ev with
                | ev_connect => (set_isConnected a true ;; on_connect) w
                | ev_data d => on_data d w
                | ev_error m => on_error m w
                | ev_close => (set_isConnected a false ;; on_close) w
                end
       | None => (Normal tt, w)
       end.

(** One turn of the event loop: a call of the host, a command sent by an
    action callback, or an event of some socket. *)
Inductive op :=
| op_init (c : Config)
| op_destroy
| op_configUpdated (c : Config)
| op_sendCommand (cmd : jsstring)
| op_socket (a : nat) (ev : socket_event).

Definition step (o : op) : M unit :=
  match o with
  | op_init c => init c
  | op_destroy => destroy
  | op_configUpdated c => configUpdated c
  | op_sendCommand cmd => sendCommand cmd
  | op_socket a ev => deliver a ev
  end.

(** The state after a sequence of turns; a turn that throws leaves the
    state it reached (the exception goes to the caller, not to the next
    turn). *)
Fixpoint run (ops : list op) (w : world) : world :=
  match ops with
  | [] => w
  | o :: ops' => run ops' (snd (step o w))
  end.

(** The mirrored session state: both lists and both mute maps. *)
Definition session (w : world) :
    list jsstring * list jsstring * gmap (list N) Number * gmap (list N) Number :=
  (virtualChannels w, presets w, channelMuteStatus w, crosspointMuteStatus w).

(** The sockets that can still deliver events. *)
Definition live (t : TCPHelper) : bool := negb (destroyed t).

Definition live_sockets (w : world) : list TCPHelper :=
  filter (λ t, live t = true) (heap w).

End ModuleInstance.

(** ** Properties *)

Import JS ModuleInstance.

Implicit Types (w : world) (c : Config) (a : nat) (t : TCPHelper).
Implicit Types (cmd data : jsstring) (ops : list op).

Arguments lit : simpl never.
Arguments startsWith : simpl never.
Arguments split : simpl never.
Arguments split_list : simpl never.
Arguments re_mute : simpl never.
Arguments re_crosspoint : simpl never.
Arguments parseInt : simpl never.
Arguments obj_set : simpl never.

(** Unfold the state-passing combinators and one layer of method bodies. *)
Ltac unfold_M :=
  unfold TCPHelper_isConnected, TCPHelper_destroy, new_TCPHelper,
    this_config, set_isConnected, bind, ret, emit, read, write, throw in *.

Ltac fields :=
  cbn [fst snd app length socket config virtualChannels presets
       channelMuteStatus crosspointMuteStatus heap trace
       set_socket set_config set_virtualChannels set_presets
       set_channelMuteStatus set_crosspointMuteStatus set_heap set_trace]
    in *.

Ltac run_M := repeat (unfold_M; fields).

(** [this.socket && this.socket.isConnected], the guard of [sendCommand]. *)
Definition connected (w : world) : bool :=
  match socket w with
  | Some a =>
      match heap w !! a with
      | Some t => isConnected t
      | None => false
      end
  | None => false
  end.

(** [this.config.host && this.config.port], the guard of line 89. *)
Definition ready (c : Config) : bool := truthy (host c) && truthy (port c).

(** The effects of closing the socket held by [w], if there is one. *)
Definition closing (w : world) : list effect :=
  match socket w with
  | Some a => [socket_destroy a]
  | None => []
  end.

(** The status reports among a list of effects. *)
Definition statuses (tr : list effect) : list (InstanceStatus * option jsstring) :=
  omap (λ e, match e with
             | updateStatus s m => Some (s, m)
             | _ => None
             end) tr.

(** A field update of the heap at one address. *)
Definition mark_destroyed (t : TCPHelper) : TCPHelper :=
  {| tcp_host := tcp_host t; tcp_port := tcp_port t;
     destroyed := true; isConnected := false |}.

Definition fresh_socket (c : Config) : TCPHelper :=
  {| tcp_host := host c; tcp_port := port c;
     destroyed := false; isConnected := false |}.

(** The heap after the socket held by [w], if any, was destroyed. *)
Definition closed_heap (w : world) : list TCPHelper :=
  match socket w with
  | Some a => alter mark_destroyed a (heap w)
  | None => heap w
  end.

(** The fields the socket lifecycle depends on. *)
Definition control (w : world) : option nat * option Config * list TCPHelper :=
  (socket w, config w, heap w).

Definition with_isConnected (b : bool) (t : TCPHelper) : TCPHelper :=
  {| tcp_host := tcp_host t; tcp_port := tcp_port t;
     destroyed := destroyed t; isConnected := b |}.

(** The invariant of the socket lifecycle: the heap holds destroyed helpers
    only, except that the helper [this.socket] points to, if any, is the
    last one allocated and is not destroyed; a socket exists only once a
    configuration is stored. *)
Definition lifecycle_inv (w : world) : Prop :=
  match socket w with
  | None => Forall (λ t, destroyed t = true) (heap w)
  | Some a =>
      is_Some (config w)
      ∧ ∃ h t, heap w = h ++ [t] ∧ a = length h
               ∧ Forall (λ t, destroyed t = true) h ∧ destroyed t = false
  end.

(** The data events of one socket, one per chunk. *)
Definition data_events (a : nat) (chunks : list jsstring) : list op :=
  (λ d, op_socket a (ev_data d)) <$> chunks.

(** Whether a chunk starts with one of the four prefixes of
    [processDeviceData]. *)
Definition recognised (data : jsstring) : bool :=
  startsWith (lit "virtual_channels=") data
  || startsWith (lit "presets=") data
  || startsWith (lit "mute ") data
  || startsWith (lit "crosspoint_mute ") data.

(** Sample inputs. *)
Definition cfg_example : Config :=
  {| host := Some (lit "10.0.0.1"); port := Some (lit "23") |}.

Definition cfg_no_host : Config :=
  {| host := None; port := Some (lit "23") |}.

(** The two chunks of the chunked-delivery scenario: a complete mute line
    for A followed by the start of the line for B, and then its end. *)
Definition chunk_1 : jsstring :=
  lit "mute " ++ dq ++ lit "A" ++ dq ++ lit "=1" ++ crlf
  ++ lit "mute " ++ dq ++ lit "B" ++ dq.

Definition chunk_2 : jsstring := lit "=0" ++ crlf.

(** A mute line without an equals sign. *)
Definition mute_without_value : jsstring :=
  lit "mute " ++ dq ++ lit "A" ++ dq.

(** The two crosspoint lines whose names contain a colon. *)
Definition crosspoint_line_1 : jsstring :=
  lit "crosspoint_mute " ++ dq ++ lit "A:B" ++ dq ++ lit " "
  ++ dq ++ lit "C" ++ dq ++ lit "=1".

Definition crosspoint_line_2 : jsstring :=
  lit "crosspoint_mute " ++ dq ++ lit "A" ++ dq ++ lit " "
  ++ dq ++ lit "B:C" ++ dq ++ lit "=0".

(** An instance connected to the sample device. *)
Definition w_connected : world :=
  run [op_init cfg_example; op_socket 0 ev_connect] constructor.

(** The same instance after the device reported one channel. *)
Definition w_one_channel : world :=
  run [op_socket 0 (ev_data (lit "virtual_channels=Ch1"))] w_connected.

(** Whether a turn is a data event of a socket. *)
Definition is_data_event (o : op) : bool :=
  match o with
  | op_socket _ (ev_data _) => true
  | _ => false
  end.

(** The effects a turn adds to the trace. *)
Definition new_effects (o : op) (w : world) : list effect :=
  drop (length (trace w)) (trace (snd (step o w))).

(** A wire line of the mute form and one of the crosspoint form. *)
Definition mute_line (name value : jsstring) : jsstring :=
  lit "mute " ++ dq ++ name ++ dq ++ lit "=" ++ value.

Definition crosspoint_line (input output value : jsstring) : jsstring :=
  lit "crosspoint_mute " ++ dq ++ input ++ dq ++ lit " "
  ++ dq ++ output ++ dq ++ lit "=" ++ value.

(** No code unit of the string is a line terminator. *)
Definition one_line (s : jsstring) : Prop :=
  Forall (λ u, isLineTerminator u = false) s.

(** The string neither starts nor ends with white space. *)
Definition trimmed (s : jsstring) : Prop :=
  (∀ u, head s = Some u → isStrWhiteSpaceChar u = false)
  ∧ (∀ u, last s = Some u → isStrWhiteSpaceChar u = false).

(** The reply text for a list of names: the names with one comma between
    each two, and the same with every name in double quotes. *)
Fixpoint join (sep : N) (names : list jsstring) : jsstring :=
  match names with
  | [] => []
  | [x] => x
  | x :: rest => x ++ sep :: join sep rest
  end.

Definition quoted (name : jsstring) : jsstring := dq ++ name ++ dq.

(** Every code unit of the string is white space. *)
Definition blank (s : jsstring) : Prop :=
  Forall (λ u, isStrWhiteSpaceChar u = true) s.

(** The effects of [sendCommand(cmd)] in the state [w]. *)
Definition command_effects (cmd : jsstring) (w : world) : list effect :=
  match socket w with
  | Some a =>
      if connected w
      then [socket_send a (cmd ++ crlf);
            log (lit "debug") (lit "Command sent: " ++ cmd)]
      else [log (lit "error") (lit "Socket not connected")]
  | None => [log (lit "error") (lit "Socket not connected")]
  end.

(** *** The built-ins on sample inputs *)

Example split_on_equals :
  split_list 61 (lit "a=b=c") = [lit "a"; lit "b"; lit "c"]
  ∧ split_list 61 [] = [[]].
Proof. split; reflexivity. Qed.

Example trim_both_ends : trim (lit "  Ch3 " ++ crlf) = lit "Ch3".
Proof. reflexivity. Qed.

Example parseInt_samples :
  parseInt (Some (lit "1" ++ crlf ++ lit "mute ")) = Int false 1
  ∧ parseInt (Some (lit " -0")) = Int true 0
  ∧ parseInt (Some (lit "abc")) = NaN
  ∧ parseInt None = NaN.
Proof. repeat split; reflexivity. Qed.

Example toDouble_ties_to_even :
  toDouble 9007199254740993 = Some 9007199254740992%N
  ∧ toDouble 9007199254740995 = Some 9007199254740996%N.
Proof. split; reflexivity. Qed.

Example re_mute_is_greedy_and_unanchored :
  re_mute (lit "x mute " ++ dq ++ lit "A" ++ dq ++ lit " " ++ dq ++ lit "B"
           ++ dq ++ lit " y")
  = Some (lit "A" ++ dq ++ lit " " ++ dq ++ lit "B").
Proof. vm_compute. reflexivity. Qed.

Example obj_set_proto_ignored :
  obj_set (lit "__proto__") (Int false 1) ∅ = ∅.
Proof. reflexivity. Qed.

(** *** Closed forms of the lifecycle methods *)

Lemma connectToDevice_eq w c :
  config w = Some c →
  connectToDevice w =
    (Normal tt,
     let h := closed_heap w in
     let tr := trace w ++ closing w in
     if ready c
     then set_socket (Some (length h))
            (set_trace (tr ++ [socket_new (length h) (host c) (port c)])
               (set_heap (h ++ [fresh_socket c]) w))
     else set_socket None (set_trace tr (set_heap h w))).
Proof.
  intros Hc. destruct w as [s cf vc pr cm xm h tr]. simpl in Hc. subst cf.
  unfold connectToDevice, closing, ready, closed_heap.
  destruct s as [a|]; run_M;
    destruct (truthy (host c) && truthy (port c)); run_M;
    rewrite ?app_nil_r, <- ?app_assoc; reflexivity.
Qed.

Lemma configUpdated_eq c w :
  configUpdated c w = connectToDevice (set_config (Some c) w).
Proof. reflexivity. Qed.

Lemma init_eq c w :
  init c w =
    (Normal tt,
     let w1 := snd (connectToDevice
                 (set_trace (trace w ++ [updateStatus Ok None])
                    (set_config (Some c) w))) in
     set_trace (trace w1 ++
       [updateActions; updateFeedbacks; updateVariableDefinitions]) w1).
Proof.
  destruct w as [s cf vc pr cm xm h tr]. unfold init, connectToDevice.
  destruct s; run_M; destruct (truthy (host c) && truthy (port c));
    run_M; rewrite <- ?app_assoc; reflexivity.
Qed.

Lemma destroy_eq w :
  destroy w =
    (Normal tt,
     set_socket None
       (set_trace (trace w ++ closing w ++
                   [log (lit "debug") (lit "Module instance destroyed")])
          (set_heap (closed_heap w) w))).
Proof.
  destruct w as [s cf vc pr cm xm h tr]. unfold destroy, closing, closed_heap.
  destruct s; run_M; rewrite <- ?app_assoc; reflexivity.
Qed.

Lemma sendCommand_eq cmd w :
  sendCommand cmd w =
    (Normal tt,
     set_trace (trace w ++
       match socket w with
       | Some a =>
           if connected w
           then [socket_send a (cmd ++ crlf);
                 log (lit "debug") (lit "Command sent: " ++ cmd)]
           else [log (lit "error") (lit "Socket not connected")]
       | None => [log (lit "error") (lit "Socket not connected")]
       end) w).
Proof.
  destruct w as [s cf vc pr cm xm h tr]. unfold sendCommand, connected.
  destruct s as [a|]; run_M; [|reflexivity].
  destruct (h !! a) as [t|]; [destruct (isConnected t)|]; run_M;
    rewrite <- ?app_assoc; reflexivity.
Qed.

(** *** The lifecycle invariant *)

Lemma lifecycle_inv_ext w w' :
  control w' = control w → lifecycle_inv w → lifecycle_inv w'.
Proof.
  unfold control, lifecycle_inv. intros [= -> -> ->]. auto.
Qed.

Lemma lifecycle_inv_constructor : lifecycle_inv constructor.
Proof. constructor. Qed.

Lemma closed_heap_length w : length (closed_heap w) = length (heap w).
Proof. unfold closed_heap. destruct (socket w); [apply length_alter|done]. Qed.

Lemma closed_heap_all_destroyed w :
  lifecycle_inv w → Forall (λ t, destroyed t = true) (closed_heap w).
Proof.
  unfold lifecycle_inv, closed_heap. destruct (socket w) as [a|]; [|done].
  intros (_ & h & t & -> & -> & Hh & _).
  replace (length h) with (length h + 0) by lia.
  rewrite alter_app_r. apply Forall_app. split; [done|].
  repeat constructor.
Qed.

Lemma lifecycle_inv_flag (f : TCPHelper → TCPHelper) a w :
  (∀ t, destroyed (f t) = destroyed t) →
  lifecycle_inv w → lifecycle_inv (set_heap (alter f a (heap w)) w).
Proof.
  intros Hf. unfold lifecycle_inv. simpl. destruct (socket w) as [b|].
  - intros (Hc & h & t & -> & -> & Hh & Ht). split; [done|].
    rewrite alter_app. case_decide.
    + exists (alter f a h), t. rewrite length_alter.
      repeat split; [|done]. apply Forall_alter; [done|].
      intros x _. by rewrite Hf.
    + destruct (a - length h) as [|n]; simpl.
      * exists h, (f t). by rewrite Hf.
      * by exists h, t.
  - intros Hh. apply Forall_alter; [done|]. intros x _. by rewrite Hf.
Qed.

Lemma connectToDevice_inv w c :
  config w = Some c → lifecycle_inv w → lifecycle_inv (snd (connectToDevice w)).
Proof.
  intros Hc Hw. rewrite (connectToDevice_eq _ c) by done. cbv zeta.
  pose proof (closed_heap_all_destroyed w Hw) as Hall.
  unfold lifecycle_inv. destruct (ready c); simpl; [|done].
  rewrite Hc. split; [by eexists|].
  by exists (closed_heap w), (fresh_socket c).
Qed.

Lemma processDeviceData_control data w :
  fst (processDeviceData data w) = Normal tt
  ∧ control (snd (processDeviceData data w)) = control w
  ∧ ∃ tl, trace (snd (processDeviceData data w))
          = trace w ++ log (lit "debug") (lit "Data received: " ++ data) :: tl.
Proof.
  unfold processDeviceData. unfold bind at 1. unfold emit at 1.
  repeat case_match; run_M; rewrite <- ?app_assoc; eauto.
Qed.

Lemma on_connect_control w :
  control (snd (on_connect w)) = control w.
Proof.
  unfold on_connect, requestDeviceConfiguration. run_M.
  destruct (config w); fields; [|done].
  rewrite sendCommand_eq. cbv beta iota.
  rewrite sendCommand_eq. done.
Qed.

Lemma deliver_inv a ev w :
  lifecycle_inv w → lifecycle_inv (snd (deliver a ev w)).
Proof.
  intros Hw. unfold deliver.
  destruct (heap w !! a) as [t|]; [|done].
  destruct (destroyed t); [done|].
  destruct ev as [|d|m|].
  - unfold bind, set_isConnected, write.
    eapply lifecycle_inv_ext; [apply on_connect_control|].
    by apply lifecycle_inv_flag.
  - eapply lifecycle_inv_ext; [|exact Hw].
    apply (processDeviceData_control d w).
  - eapply lifecycle_inv_ext; [|exact Hw]. done.
  - eapply lifecycle_inv_ext; [|by apply (lifecycle_inv_flag
      (with_isConnected false) a)]. done.
Qed.

Lemma lifecycle_inv_set_config c w :
  lifecycle_inv w → lifecycle_inv (set_config (Some c) w).
Proof.
  unfold lifecycle_inv. simpl. destruct (socket w); [|done].
  intros [_ H]. split; [by eexists|done].
Qed.

Lemma step_inv o w : lifecycle_inv w → lifecycle_inv (snd (step o w)).
Proof.
  intros Hw. destruct o as [c| |c|cmd|a ev]; simpl.
  - rewrite init_eq. cbv zeta.
    set (w0 := set_trace _ (set_config (Some c) w)).
    assert (lifecycle_inv w0) as Hw0.
    { apply (lifecycle_inv_ext (set_config (Some c) w)); [done|].
      by apply lifecycle_inv_set_config. }
    apply (lifecycle_inv_ext (snd (connectToDevice w0))); [done|].
    by apply (connectToDevice_inv w0 c).
  - rewrite destroy_eq. unfold lifecycle_inv. fields.
    by apply closed_heap_all_destroyed.
  - rewrite configUpdated_eq.
    apply (connectToDevice_inv _ c); [done|].
    by apply lifecycle_inv_set_config.
  - rewrite sendCommand_eq. by apply (lifecycle_inv_ext w).
  - by apply deliver_inv.
Qed.

Lemma run_inv ops w : lifecycle_inv w → lifecycle_inv (run ops w).
Proof.
  revert w. induction ops as [|o ops IH]; intros w Hw; simpl; [done|].
  apply IH. by apply step_inv.
Qed.

Lemma lifecycle_inv_live w a t :
  lifecycle_inv w → heap w !! a = Some t → destroyed t = false →
  socket w = Some a ∧ is_Some (config w).
Proof.
  unfold lifecycle_inv. destruct (socket w) as [b|].
  - intros (Hc & h & t' & Hheap & -> & Hh & Ht') Ha Ht. rewrite Hheap in Ha.
    apply lookup_app_Some in Ha as [Ha|[Hlen Ha]].
    + rewrite Forall_lookup in Hh. specialize (Hh _ _ Ha). congruence.
    + destruct (a - length h) as [|n] eqn:E; [|done].
      split; [|done]. f_equal. lia.
  - intros Hh Ha Ht. rewrite Forall_lookup in Hh.
    specialize (Hh _ _ Ha). congruence.
Qed.

Lemma lifecycle_inv_count w :
  lifecycle_inv w → length (live_sockets w) ≤ 1.
Proof.
  assert (Hnil : ∀ h, Forall (λ t, destroyed t = true) h →
                      filter (λ t, live t = true) h = []).
  { induction 1 as [|t h Ht _ IH]; [done|].
    rewrite filter_cons_False; [done|]. unfold live. by rewrite Ht. }
  unfold lifecycle_inv, live_sockets. destruct (socket w) as [b|].
  - intros (_ & h & t & -> & _ & Hh & _).
    rewrite filter_app, (Hnil h Hh). simpl. apply length_filter.
  - intros Hh. rewrite (Hnil _ Hh). simpl. lia.
Qed.

Lemma on_connect_eq w c a :
  config w = Some c → socket w = Some a → connected w = true →
  on_connect w =
    (Normal tt,
     set_trace (trace w ++
       [updateStatus Ok None;
        log (lit "info") (lit "Connected to SoundStructure at "
                          ++ ToString (host c) ++ lit ":" ++ ToString (port c));
        socket_send a (lit "get virtual_channels" ++ crlf);
        log (lit "debug") (lit "Command sent: " ++ lit "get virtual_channels");
        socket_send a (lit "get presets" ++ crlf);
        log (lit "debug") (lit "Command sent: " ++ lit "get presets")]) w).
Proof.
  intros Hc Hs Hcon. unfold on_connect, requestDeviceConfiguration.
  run_M. rewrite Hc. fields.
  rewrite sendCommand_eq. cbv beta iota. rewrite sendCommand_eq.
  unfold connected in *. fields. rewrite Hs in *. fields.
  rewrite Hcon. destruct w. fields.
  rewrite <- !app_assoc. reflexivity.
Qed.

(** *** C3: at most one live socket *)

(** C3. In every state an instance can reach from its constructor, at most
    one socket is live; a live socket is the one [this.socket] holds; a
    destroyed socket delivers no event to the instance; and a configuration
    update made while a socket is held destroys that socket before the new
    one is created, so that the old one is destroyed in the state in which
    the new one exists. *)
Theorem at_most_one_live_socket ops :
  length (live_sockets (run ops constructor)) ≤ 1
  ∧ (∀ a t, heap (run ops constructor) !! a = Some t →
            destroyed t = false → socket (run ops constructor) = Some a)
  ∧ (∀ a t ev, heap (run ops constructor) !! a = Some t →
               destroyed t = true →
               deliver a ev (run ops constructor)
               = (Normal tt, run ops constructor))
  ∧ (∀ c a, socket (run ops constructor) = Some a →
       trace (snd (configUpdated c (run ops constructor)))
       = trace (run ops constructor) ++ socket_destroy a
         :: (if ready c
             then [socket_new (length (heap (run ops constructor)))
                     (host c) (port c)]
             else [])
       ∧ ∃ t, heap (snd (configUpdated c (run ops constructor))) !! a = Some t
              ∧ destroyed t = true)
  ∧ (∀ c a, socket (run ops constructor) = Some a →
       trace (snd (init c (run ops constructor)))
       = trace (run ops constructor)
         ++ updateStatus Ok None :: socket_destroy a
         :: (if ready c
             then [socket_new (length (heap (run ops constructor)))
                     (host c) (port c)]
             else [])
         ++ [updateActions; updateFeedbacks; updateVariableDefinitions]).
Proof.
  pose proof (run_inv ops constructor lifecycle_inv_constructor) as Hinv.
  set (w := run ops constructor) in *.
  split; [by apply lifecycle_inv_count|].
  split; [intros a t Ha Ht; by apply (lifecycle_inv_live w a t)|].
  split.
  { intros a t ev Ha Ht. unfold deliver. by rewrite Ha, Ht. }
  split; cycle 1.
  { intros c a Hs. rewrite init_eq. cbv zeta.
    rewrite (connectToDevice_eq _ c) by reflexivity. cbv zeta.
    rewrite closed_heap_length. unfold closing. fields. rewrite Hs.
    destruct (ready c); fields; rewrite <- !app_assoc; reflexivity. }
  intros c a Hs.
  rewrite configUpdated_eq, (connectToDevice_eq _ c) by reflexivity.
  cbv zeta. rewrite closed_heap_length.
  unfold closing, closed_heap. fields. rewrite Hs.
  assert (∃ t, heap w !! a = Some t) as [t Ha].
  { unfold lifecycle_inv in Hinv. rewrite Hs in Hinv.
    destruct Hinv as (_ & h & t & -> & -> & _). exists t.
    by rewrite list_lookup_middle. }
  assert (alter mark_destroyed a (heap w) !! a = Some (mark_destroyed t))
    as Halt by (by rewrite list_lookup_alter_eq, Ha).
  destruct (ready c); fields.
  - split; [by rewrite <- app_assoc|].
    exists (mark_destroyed t). split; [|done].
    by apply lookup_app_l_Some.
  - split; [done|]. by exists (mark_destroyed t).
Qed.

Lemma at_most_one_live_socket_witness :
  socket (run [op_init cfg_example; op_socket 0 ev_connect;
               op_configUpdated cfg_example] constructor) = Some 1
  ∧ deliver 0 (ev_data chunk_1)
      (run [op_init cfg_example; op_socket 0 ev_connect;
            op_configUpdated cfg_example] constructor)
    = (Normal tt,
       run [op_init cfg_example; op_socket 0 ev_connect;
            op_configUpdated cfg_example] constructor)
  ∧ ∃ t, heap (snd (configUpdated cfg_example w_connected)) !! 0 = Some t
         ∧ destroyed t = true.
Proof.
  pose proof (at_most_one_live_socket
    [op_init cfg_example; op_socket 0 ev_connect;
     op_configUpdated cfg_example]) as (_ & Hlive & Hdead & _).
  pose proof (at_most_one_live_socket
    [op_init cfg_example; op_socket 0 ev_connect]) as (_ & _ & _ & Hupd & _).
  split; [|split].
  - apply (Hlive 1 (fresh_socket cfg_example)); reflexivity.
  - apply (Hdead 0 (mark_destroyed
             (with_isConnected true (fresh_socket cfg_example))));
      reflexivity.
  - apply (Hupd cfg_example 0). reflexivity.
Defined.

(** *** C5: the startup queries *)

(** C5. Whenever a live socket of a reachable state reports a successful
    connect, the listener completes normally and its effects are, in this
    order: the status report Ok, the info log line, and the two startup
    queries [get virtual_channels] and [get presets], each with the line
    terminator appended and each sent over that same socket (followed by
    its debug log line). *)
Theorem connect_reports_ok_and_queries ops a t :
  heap (run ops constructor) !! a = Some t →
  destroyed t = false →
  ∃ c, config (run ops constructor) = Some c
    ∧ fst (deliver a ev_connect (run ops constructor)) = Normal tt
    ∧ trace (snd (deliver a ev_connect (run ops constructor))) =
        trace (run ops constructor) ++
        [updateStatus Ok None;
         log (lit "info") (lit "Connected to SoundStructure at "
                           ++ ToString (host c) ++ lit ":"
                           ++ ToString (port c));
         socket_send a (lit "get virtual_channels" ++ crlf);
         log (lit "debug") (lit "Command sent: " ++ lit "get virtual_channels");
         socket_send a (lit "get presets" ++ crlf);
         log (lit "debug") (lit "Command sent: " ++ lit "get presets")].
Proof.
  intros Ha Ht.
  pose proof (run_inv ops constructor lifecycle_inv_constructor) as Hinv.
  set (w := run ops constructor) in *.
  destruct (lifecycle_inv_live w a t Hinv Ha Ht) as [Hs [c Hc]].
  exists c. split; [done|].
  unfold deliver. rewrite Ha, Ht.
  unfold bind, set_isConnected, write.
  rewrite (on_connect_eq _ c a); [done|done|done|].
  unfold connected. fields. by rewrite Hs, list_lookup_alter_eq, Ha.
Qed.

Lemma connect_reports_ok_and_queries_witness :
  heap (run [op_init cfg_example] constructor) !! 0
    = Some (fresh_socket cfg_example)
  ∧ destroyed (fresh_socket cfg_example) = false
  ∧ ∃ c, config (run [op_init cfg_example] constructor) = Some c
    ∧ fst (deliver 0 ev_connect (run [op_init cfg_example] constructor))
      = Normal tt
    ∧ trace (snd (deliver 0 ev_connect
                    (run [op_init cfg_example] constructor))) =
        trace (run [op_init cfg_example] constructor) ++
        [updateStatus Ok None;
         log (lit "info") (lit "Connected to SoundStructure at "
                           ++ ToString (host c) ++ lit ":"
                           ++ ToString (port c));
         socket_send 0 (lit "get virtual_channels" ++ crlf);
         log (lit "debug") (lit "Command sent: " ++ lit "get virtual_channels");
         socket_send 0 (lit "get presets" ++ crlf);
         log (lit "debug") (lit "Command sent: " ++ lit "get presets")].
Proof.
  split; [reflexivity|]. split; [reflexivity|].
  apply (connect_reports_ok_and_queries [op_init cfg_example] 0
           (fresh_socket cfg_example)); reflexivity.
Defined.

(** *** C8: a configuration update keeps the mirrored state *)

(** C8. For every configuration update, [configUpdated] completes normally,
    stores the new configuration, and leaves the channel list, the preset
    list, the channel mute map and the crosspoint mute map exactly as they
    were: the only fields of the instance it writes are [config] and
    [socket]. *)
Theorem configUpdated_keeps_session c w :
  fst (configUpdated c w) = Normal tt
  ∧ config (snd (configUpdated c w)) = Some c
  ∧ virtualChannels (snd (configUpdated c w)) = virtualChannels w
  ∧ presets (snd (configUpdated c w)) = presets w
  ∧ channelMuteStatus (snd (configUpdated c w)) = channelMuteStatus w
  ∧ crosspointMuteStatus (snd (configUpdated c w)) = crosspointMuteStatus w.
Proof.
  rewrite configUpdated_eq, (connectToDevice_eq _ c) by reflexivity.
  cbv zeta. destruct (ready c); simpl; auto 10.
Qed.

(** *** C10: [init] reports Ok before it tries to connect *)

(** C10. For every configuration passed to [init], the first effect of
    [init] is the status report Ok, before the old socket is closed and
    before a socket is created; when host or port is missing no socket is
    created, [this.socket] stays null, and Ok is the only status [init]
    reports. *)
Theorem init_reports_ok_first c w :
  fst (init c w) = Normal tt
  ∧ trace (snd (init c w)) =
      trace w ++ [updateStatus Ok None] ++ closing w
      ++ (if ready c
          then [socket_new (length (heap w)) (host c) (port c)] else [])
      ++ [updateActions; updateFeedbacks; updateVariableDefinitions]
  ∧ (ready c = false →
       socket (snd (init c w)) = None
       ∧ length (heap (snd (init c w))) = length (heap w)
       ∧ statuses (drop (length (trace w)) (trace (snd (init c w))))
         = [(Ok, None)]).
Proof.
  rewrite init_eq. cbv zeta.
  rewrite (connectToDevice_eq _ c) by reflexivity. cbv zeta.
  rewrite closed_heap_length. unfold closing. fields.
  split; [reflexivity|]. split.
  - destruct (socket w), (ready c); fields;
      rewrite <- ?app_assoc; reflexivity.
  - intros ->. fields. split; [reflexivity|]. split.
    + rewrite closed_heap_length. reflexivity.
    + rewrite <- !app_assoc, drop_app_length. destruct (socket w); reflexivity.
Qed.

Lemma init_reports_ok_first_witness :
  ready cfg_no_host = false
  ∧ socket (snd (init cfg_no_host constructor)) = None
  ∧ statuses (drop (length (trace constructor))
                (trace (snd (init cfg_no_host constructor))))
    = [(Ok, None)].
Proof.
  destruct (init_reports_ok_first cfg_no_host constructor) as (_ & _ & H).
  destruct (H eq_refl) as (Hs & _ & Hst).
  split; [reflexivity|]. split; [exact Hs|exact Hst].
Defined.

(** *** C4: a command sent while not connected *)

(** C4. For every command string, when there is no socket or the socket
    does not report connected, [sendCommand] completes normally (it does
    not throw and returns nothing), its only effect is the error log line
    (nothing is sent, nothing is kept for later), and the channel list, the
    preset list and both mute maps are unchanged. *)
Theorem sendCommand_while_not_connected cmd w :
  connected w = false →
  sendCommand cmd w =
    (Normal tt,
     set_trace (trace w ++ [log (lit "error") (lit "Socket not connected")]) w)
  ∧ session (snd (sendCommand cmd w)) = session w.
Proof.
  intros Hc. rewrite sendCommand_eq, Hc.
  destruct (socket w); split; reflexivity.
Qed.

Lemma sendCommand_while_not_connected_witness :
  connected (snd (init cfg_example constructor)) = false
  ∧ sendCommand (lit "get presets") (snd (init cfg_example constructor)) =
      (Normal tt,
       set_trace (trace (snd (init cfg_example constructor))
                  ++ [log (lit "error") (lit "Socket not connected")])
         (snd (init cfg_example constructor))).
Proof.
  split; [reflexivity|].
  apply (sendCommand_while_not_connected (lit "get presets")
           (snd (init cfg_example constructor))).
  reflexivity.
Defined.

(** *** C7: teardown *)




(** *** Facts about the decoder *)

(** Replace a closed subterm by its value. *)
Ltac eval_closed t := let v := eval vm_compute in t in change t with v.

Ltac eval_guards :=
  repeat match goal with
         | |- context [startsWith ?p ?d] => eval_closed (startsWith p d)
         | |- context [split ?c ?d] => eval_closed (split c d)
         | |- context [split_list ?c ?d] => eval_closed (split_list c d)
         | |- context [re_mute ?s] => eval_closed (re_mute s)
         | |- context [re_crosspoint ?s] => eval_closed (re_crosspoint s)
         | |- context [parseInt ?s] => eval_closed (parseInt s)
         end; cbv beta iota.

Lemma obj_set_other (key : jsstring) (v : Number) (o : gmap (list N) Number) :
  key ≠ lit "__proto__" → obj_set key v o = <[key := v]> o.
Proof. intros Hk. unfold obj_set. by case_decide. Qed.

Lemma startsWith_cons (x y : N) (p s : jsstring) :
  startsWith (x :: p) (y :: s) = (x =? y)%N && startsWith p s.
Proof. reflexivity. Qed.

Lemma startsWith_mute_only data :
  startsWith (lit "mute ") data = true →
  startsWith (lit "virtual_channels=") data = false
  ∧ startsWith (lit "presets=") data = false.
Proof.
  destruct data as [|x d]; [discriminate|].
  change (lit "mute ") with (109%N :: lit "ute ").
  rewrite startsWith_cons. intros [Hx _]%andb_true_iff.
  apply N.eqb_eq in Hx. subst x. split; reflexivity.
Qed.

Lemma match_lit_Some (p s r : jsstring) : match_lit p s = Some r → s = p ++ r.
Proof.
  revert s. induction p as [|x p IH]; intros [|y s]; simpl; try congruence.
  destruct (N.eqb_spec x y) as [->|]; [|discriminate].
  intros H. by rewrite (IH _ H).
Qed.

Lemma re_mute_at_needs_quote (s : jsstring) : 34%N ∉ s → re_mute_at s = None.
Proof.
  intros Hs. unfold re_mute_at.
  destruct (match_lit (lit "mute " ++ dq) s) as [r|] eqn:E; [|done].
  apply match_lit_Some in E. subst s. exfalso. apply Hs.
  rewrite !elem_of_app. left. right. unfold dq. set_solver.
Qed.

Lemma re_mute_needs_quote (s : jsstring) : 34%N ∉ s → re_mute s = None.
Proof.
  unfold re_mute. induction s as [|x s IH]; intros Hs.
  - reflexivity.
  - cbn [exec]. rewrite (re_mute_at_needs_quote _ Hs).
    apply IH. intros H. apply Hs. by right.
Qed.

Lemma processDeviceData_mute_mismatch data w :
  startsWith (lit "mute ") data = true →
  re_mute (fst (split 61 data)) = None →
  processDeviceData data w =
    (Normal tt,
     set_trace (trace w ++ [log (lit "debug") (lit "Data received: " ++ data)])
       w).
Proof.
  intros Hm Hre. destruct (startsWith_mute_only data Hm) as [Hv Hp].
  unfold processDeviceData. rewrite Hv, Hp, Hm.
  destruct (split 61 data) as [i rest]. cbn [fst] in Hre. rewrite Hre.
  reflexivity.
Qed.

Lemma data_events_run a t chunks w :
  heap w !! a = Some t → destroyed t = false →
  run (data_events a chunks) w
  = foldl (λ w d, snd (processDeviceData d w)) w chunks.
Proof.
  revert w. induction chunks as [|d chunks IH]; intros w Ha Ht; [done|].
  cbn [data_events fmap list_fmap run foldl step]. unfold deliver at 1.
  rewrite Ha, Ht. unfold on_data. apply IH; [|done].
  destruct (processDeviceData_control d w) as (_ & [= _ _ ->] & _). done.
Qed.

Lemma processDeviceData_unrecognised data w :
  recognised data = false →
  processDeviceData data w =
    (Normal tt,
     set_trace (trace w ++ [log (lit "debug") (lit "Data received: " ++ data)])
       w).
Proof.
  unfold recognised. intros H.
  apply orb_false_iff in H as [H Hx].
  apply orb_false_iff in H as [H Hm].
  apply orb_false_iff in H as [Hv Hp].
  unfold processDeviceData. rewrite Hv, Hp, Hm, Hx. reflexivity.
Qed.

(** *** C1: chunked delivery *)

(** C1, as stated, fails: after the two chunks of the scenario the channel
    mute map does not hold both updates. *)
Lemma chunked_delivery_loses_update :
  ¬ (channelMuteStatus (run (data_events 0 [chunk_1; chunk_2]) w_connected)
       !! lit "A" = Some (Int false 1)
     ∧ channelMuteStatus (run (data_events 0 [chunk_1; chunk_2]) w_connected)
       !! lit "B" = Some (Int false 0)).
Proof. intros [_ H]. vm_compute in H. discriminate H. Qed.

(** C1, amended. The listener keeps no line buffer: for every sequence of
    inbound data chunks of a live socket, each chunk is passed whole and
    exactly once to [processDeviceData], in order, which decodes it as one
    line; a chunk that starts with none of the four prefixes only adds its
    debug log line, so the rest of a line split over two chunks is dropped.
    In particular the chunks of the scenario leave the channel mute map
    with the single entry A=1, and B has no entry. *)
Theorem chunks_decoded_whole :
  (∀ a t (chunks : list jsstring) w,
     heap w !! a = Some t → destroyed t = false →
     run (data_events a chunks) w
     = foldl (λ w d, snd (processDeviceData d w)) w chunks)
  ∧ (∀ data w,
       recognised data = false →
       processDeviceData data w =
         (Normal tt,
          set_trace (trace w ++
            [log (lit "debug") (lit "Data received: " ++ data)]) w))
  ∧ channelMuteStatus (run (data_events 0 [chunk_1; chunk_2]) w_connected)
    = {[ lit "A" := Int false 1 ]}.
Proof.
  split; [exact data_events_run|].
  split; [exact processDeviceData_unrecognised|].
  vm_compute. reflexivity.
Qed.

Lemma chunks_decoded_whole_witness :
  heap w_connected !! 0
    = Some (with_isConnected true (fresh_socket cfg_example))
  ∧ recognised chunk_2 = false
  ∧ run (data_events 0 [chunk_1; chunk_2]) w_connected
    = foldl (λ w d, snd (processDeviceData d w)) w_connected
        [chunk_1; chunk_2]
  ∧ processDeviceData chunk_2 w_connected =
      (Normal tt,
       set_trace (trace w_connected ++
         [log (lit "debug") (lit "Data received: " ++ chunk_2)]) w_connected).
Proof.
  destruct chunks_decoded_whole as (Hrun & Hskip & _).
  split; [reflexivity|]. split; [reflexivity|]. split.
  - apply (Hrun 0 (with_isConnected true (fresh_socket cfg_example)));
      reflexivity.
  - apply Hskip. reflexivity.
Defined.

(** *** C2: mute lines that do not match *)

(** C2, as stated, fails: a line that starts with the mute prefix and has
    no equals sign is not dropped; it stores NaN for the channel. *)
Lemma mute_without_value_stores_NaN :
  startsWith (lit "mute ") mute_without_value = true
  ∧ (61%N ∉ mute_without_value)
  ∧ fst (processDeviceData mute_without_value constructor) = Normal tt
  ∧ channelMuteStatus (snd (processDeviceData mute_without_value constructor))
    = {[ lit "A" := NaN ]}
  ∧ session (snd (processDeviceData mute_without_value constructor))
    ≠ session constructor.
Proof.
  split; [reflexivity|]. split.
  { apply (bool_decide_unpack _). vm_compute. exact I. }
  split; [reflexivity|]. split; [vm_compute; reflexivity|].
  intros H. apply (f_equal (λ s, s.1.2 !! lit "A")) in H.
  vm_compute in H. discriminate H.
Qed.

(** C2, amended. For every inbound line that starts with the mute prefix
    and whose text before the first equals sign contains no match of the
    pattern (the word mute, a space and a quoted name), decoding is a
    no-op: it completes normally, and nothing but the debug log line is
    added, so the channel mute map and all other state are unchanged. This
    holds in particular for every such line with no double quote before the
    first equals sign. *)
Theorem mute_mismatch_is_noop data w :
  startsWith (lit "mute ") data = true →
  (re_mute (fst (split 61 data)) = None →
   processDeviceData data w =
     (Normal tt,
      set_trace (trace w ++
        [log (lit "debug") (lit "Data received: " ++ data)]) w))
  ∧ (34%N ∉ fst (split 61 data) →
     processDeviceData data w =
       (Normal tt,
        set_trace (trace w ++
          [log (lit "debug") (lit "Data received: " ++ data)]) w)).
Proof.
  intros Hm. split.
  - by apply processDeviceData_mute_mismatch.
  - intros Hq. apply processDeviceData_mute_mismatch; [done|].
    by apply re_mute_needs_quote.
Qed.

Lemma mute_mismatch_is_noop_witness :
  startsWith (lit "mute ") (lit "mute A=1") = true
  ∧ (34%N ∉ fst (split 61 (lit "mute A=1")))
  ∧ processDeviceData (lit "mute A=1") w_connected =
      (Normal tt,
       set_trace (trace w_connected ++
         [log (lit "debug") (lit "Data received: " ++ lit "mute A=1")])
         w_connected).
Proof.
  assert (34%N ∉ fst (split 61 (lit "mute A=1"))) as Hq.
  { apply (bool_decide_unpack _). vm_compute. exact I. }
  split; [reflexivity|]. split; [exact Hq|].
  apply (mute_mismatch_is_noop (lit "mute A=1") w_connected);
    [reflexivity|exact Hq].
Defined.

(** *** C6: the two list replies *)


(** *** C9: the crosspoint key *)

(** C9. The key of the crosspoint mute map is the input name, a colon and
    the output name, and this is not injective: the distinct crosspoints
    (A:B, C) and (A, B:C) have the same key A:B:C, so the update for the
    second overwrites the entry written by the update for the first. *)
Theorem crosspoint_key_collision w :
  (lit "A:B", lit "C") ≠ (lit "A", lit "B:C")
  ∧ re_crosspoint (fst (split 61 crosspoint_line_1)) = Some (lit "A:B", lit "C")
  ∧ re_crosspoint (fst (split 61 crosspoint_line_2)) = Some (lit "A", lit "B:C")
  ∧ lit "A:B" ++ lit ":" ++ lit "C" = lit "A" ++ lit ":" ++ lit "B:C"
  ∧ crosspointMuteStatus (snd (processDeviceData crosspoint_line_1 w))
    = <[lit "A:B:C" := Int false 1]> (crosspointMuteStatus w)
  ∧ crosspointMuteStatus
      (snd (processDeviceData crosspoint_line_2
              (snd (processDeviceData crosspoint_line_1 w))))
    = <[lit "A:B:C" := Int false 0]> (crosspointMuteStatus w).
Proof.
  assert (lit "A:B:C" ≠ lit "__proto__") as Hk
    by (intros H; vm_compute in H; discriminate H).
  split; [intros H; vm_compute in H; discriminate H|].
  split; [vm_compute; reflexivity|].
  split; [vm_compute; reflexivity|].
  split; [reflexivity|].
  assert (∀ w', crosspointMuteStatus (snd (processDeviceData crosspoint_line_1 w'))
                = <[lit "A:B:C" := Int false 1]> (crosspointMuteStatus w')) as H1.
  { intros w'. unfold processDeviceData. eval_guards. run_M.
    by rewrite <- (obj_set_other _ _ _ Hk). }
  split; [apply H1|].
  rewrite <- (insert_insert_eq (crosspointMuteStatus w) (lit "A:B:C")
                (Int false 0) (Int false 1)).
  rewrite <- H1.
  unfold processDeviceData at 1. eval_guards. run_M.
  by rewrite <- (obj_set_other _ _ _ Hk).
Qed.

(** ** Further properties of the decoder *)

(** *** Splitting, trimming and matching *)

Lemma split_cons (sep x : N) (s : jsstring) :
  split sep (x :: s) =
    if (x =? sep)%N then ([], (split sep s).1 :: (split sep s).2)
    else (x :: (split sep s).1, (split sep s).2).
Proof.
  change (split sep (x :: s))
    with (let '(y, ys) := split sep s in
          if (x =? sep)%N then ([], y :: ys) else (x :: y, ys)).
  by destruct (split sep s), (x =? sep)%N.
Qed.

Lemma split_no_sep (sep : N) (s : jsstring) :
  sep ∉ s → split sep s = (s, []).
Proof.
  induction s as [|c s IH]; intros Hs; [done|].
  apply not_elem_of_cons in Hs as [Hc Hs].
  rewrite split_cons, (IH Hs).
  destruct (N.eqb_spec c sep) as [->|]; done.
Qed.

Lemma split_app_sep (sep : N) (a b : jsstring) :
  sep ∉ a →
  split sep (a ++ sep :: b) = (a, (split sep b).1 :: (split sep b).2).
Proof.
  induction a as [|c a IH]; intros Ha.
  - cbn [app]. by rewrite split_cons, N.eqb_refl.
  - apply not_elem_of_cons in Ha as [Hc Ha].
    cbn [app]. rewrite split_cons, (IH Ha).
    destruct (N.eqb_spec c sep) as [->|]; done.
Qed.

Lemma split_pieces (sep : N) (s : jsstring) :
  (sep ∉ (split sep s).1)
  ∧ Forall (λ x, sep ∉ x) (split sep s).2
  ∧ length (split sep s).2 = length (filter (λ u, u = sep) s).
Proof.
  induction s as [|c s (IH1 & IH2 & IH3)].
  - repeat split; [apply not_elem_of_nil|constructor].
  - rewrite split_cons. destruct (split sep s) as [x xs]. cbn [fst snd] in *.
    destruct (N.eqb_spec c sep) as [->|Hne]; cbn [fst snd].
    + rewrite filter_cons_True by done. cbn [length].
      repeat split; [apply not_elem_of_nil|by constructor|by rewrite IH3].
    + rewrite filter_cons_False by done.
      repeat split; [|done|done].
      by apply not_elem_of_cons.
Qed.

Lemma split_list_pieces (sep : N) (s : jsstring) :
  Forall (λ x, sep ∉ x) (split_list sep s)
  ∧ length (split_list sep s) = S (length (filter (λ u, u = sep) s)).
Proof.
  destruct (split_pieces sep s) as (H1 & H2 & H3).
  unfold split_list. destruct (split sep s) as [x xs]. cbn [fst snd] in *.
  split; [by constructor|]. cbn [length]. by rewrite H3.
Qed.

Lemma rev_is_reverse (s : jsstring) : rev s = reverse s.
Proof. unfold reverse. apply rev_alt. Qed.

Lemma trimStart_suffix (s : jsstring) :
  ∃ p, s = p ++ trimStart s ∧ Forall (λ u, isStrWhiteSpaceChar u = true) p.
Proof.
  induction s as [|c s (p & Hp & Hws)].
  - by exists [].
  - cbn [trimStart]. destruct (isStrWhiteSpaceChar c) eqn:E.
    + exists (c :: p). split; [by rewrite Hp at 1|by constructor].
    + by exists [].
Qed.

Lemma trimStart_head (s : jsstring) (c : N) :
  head (trimStart s) = Some c → isStrWhiteSpaceChar c = false.
Proof.
  induction s as [|x s IH]; [done|].
  cbn [trimStart]. destruct (isStrWhiteSpaceChar x) eqn:E; [done|].
  intros [= <-]. done.
Qed.

Lemma trimEnd_prefix (s : jsstring) :
  ∃ q, s = trimEnd s ++ q ∧ Forall (λ u, isStrWhiteSpaceChar u = true) q.
Proof.
  unfold trimEnd. destruct (trimStart_suffix (rev s)) as (p & Hp & Hws).
  exists (rev p). split.
  - rewrite <- rev_app_distr, <- Hp. by rewrite rev_involutive.
  - rewrite rev_is_reverse. by apply Forall_reverse.
Qed.

Lemma trimEnd_last (s : jsstring) (c : N) :
  last (trimEnd s) = Some c → isStrWhiteSpaceChar c = false.
Proof.
  unfold trimEnd. rewrite rev_is_reverse, last_reverse.
  apply trimStart_head.
Qed.

Lemma trim_trimmed (s : jsstring) : trimmed (trim s).
Proof.
  unfold trimmed, trim. split; [|apply trimEnd_last].
  intros c Hc. destruct (trimEnd_prefix (trimStart s)) as (q & Hq & _).
  apply (trimStart_head s). rewrite Hq.
  destruct (trimEnd (trimStart s)); [done|exact Hc].
Qed.

Lemma trim_elem_of (s : jsstring) (c : N) : c ∈ trim s → c ∈ s.
Proof.
  unfold trim. intros Hc.
  destruct (trimEnd_prefix (trimStart s)) as (q & Hq & _).
  destruct (trimStart_suffix s) as (p & Hp & _).
  rewrite Hp, Hq, !elem_of_app. auto.
Qed.

(** *** Closed forms of the branches of [processDeviceData] *)

Lemma processDeviceData_channels data w :
  startsWith (lit "virtual_channels=") data = true →
  processDeviceData data w =
    (Normal tt,
     set_trace (trace w ++
       [log (lit "debug") (lit "Data received: " ++ data); updateActions])
       (set_virtualChannels
          (trim <$> split_list 44
             (substring (length (lit "virtual_channels=")) data)) w)).
Proof.
  intros Hv. unfold processDeviceData. rewrite Hv. run_M.
  destruct w. fields. by rewrite <- app_assoc.
Qed.

Lemma processDeviceData_presets data w :
  startsWith (lit "virtual_channels=") data = false →
  startsWith (lit "presets=") data = true →
  processDeviceData data w =
    (Normal tt,
     set_trace (trace w ++
       [log (lit "debug") (lit "Data received: " ++ data); updateActions])
       (set_presets
          ((λ p, trim (remove_quotes p)) <$> split_list 44
             (substring (length (lit "presets=")) data)) w)).
Proof.
  intros Hv Hp. unfold processDeviceData. rewrite Hv, Hp. run_M.
  destruct w. fields. by rewrite <- app_assoc.
Qed.

Lemma processDeviceData_mute data w (channel : jsstring) :
  startsWith (lit "mute ") data = true →
  re_mute (split 61 data).1 = Some channel →
  processDeviceData data w =
    (Normal tt,
     set_trace (trace w ++
       [log (lit "debug") (lit "Data received: " ++ data);
        checkFeedbacks (lit "channelMuteStatus")])
       (set_channelMuteStatus
          (obj_set channel (parseInt (head (split 61 data).2))
             (channelMuteStatus w)) w)).
Proof.
  intros Hm Hre. destruct (startsWith_mute_only data Hm) as [Hv Hp].
  unfold processDeviceData. rewrite Hv, Hp, Hm.
  destruct (split 61 data) as [i rest]. cbn [fst snd] in *. rewrite Hre.
  run_M. destruct w. fields. by rewrite <- app_assoc.
Qed.

Lemma startsWith_crosspoint_only data :
  startsWith (lit "crosspoint_mute ") data = true →
  startsWith (lit "virtual_channels=") data = false
  ∧ startsWith (lit "presets=") data = false
  ∧ startsWith (lit "mute ") data = false.
Proof.
  destruct data as [|x d]; [discriminate|].
  change (lit "crosspoint_mute ") with (99%N :: lit "rosspoint_mute ").
  rewrite startsWith_cons. intros [Hx _]%andb_true_iff.
  apply N.eqb_eq in Hx. subst x. repeat split; reflexivity.
Qed.

Lemma processDeviceData_crosspoint data w (input output : jsstring) :
  startsWith (lit "crosspoint_mute ") data = true →
  re_crosspoint (split 61 data).1 = Some (input, output) →
  processDeviceData data w =
    (Normal tt,
     set_trace (trace w ++
       [log (lit "debug") (lit "Data received: " ++ data);
        checkFeedbacks (lit "crosspointMuteStatus")])
       (set_crosspointMuteStatus
          (obj_set (input ++ lit ":" ++ output)
             (parseInt (head (split 61 data).2))
             (crosspointMuteStatus w)) w)).
Proof.
  intros Hx Hre.
  destruct (startsWith_crosspoint_only data Hx) as (Hv & Hp & Hm).
  unfold processDeviceData. rewrite Hv, Hp, Hm, Hx.
  destruct (split 61 data) as [i rest]. cbn [fst snd] in *. rewrite Hre.
  run_M. destruct w. fields. by rewrite <- app_assoc.
Qed.

Lemma processDeviceData_crosspoint_mismatch data w :
  startsWith (lit "crosspoint_mute ") data = true →
  re_crosspoint (split 61 data).1 = None →
  processDeviceData data w =
    (Normal tt,
     set_trace (trace w ++ [log (lit "debug") (lit "Data received: " ++ data)])
       w).
Proof.
  intros Hx Hre.
  destruct (startsWith_crosspoint_only data Hx) as (Hv & Hp & Hm).
  unfold processDeviceData. rewrite Hv, Hp, Hm, Hx.
  destruct (split 61 data) as [i rest]. cbn [fst snd] in *. rewrite Hre.
  reflexivity.
Qed.

(** The outcome of one decoding step, by the branch taken. *)
Lemma processDeviceData_cases data w :
  let w' := snd (processDeviceData data w) in
  let line := log (lit "debug") (lit "Data received: " ++ data) in
  fst (processDeviceData data w) = Normal tt
  ∧ control w' = control w
  ∧ ((trace w' = trace w ++ [line] ∧ session w' = session w)
     ∨ (trace w' = trace w ++ [line; updateActions]
        ∧ presets w' = presets w
        ∧ channelMuteStatus w' = channelMuteStatus w
        ∧ crosspointMuteStatus w' = crosspointMuteStatus w)
     ∨ (trace w' = trace w ++ [line; updateActions]
        ∧ virtualChannels w' = virtualChannels w
        ∧ channelMuteStatus w' = channelMuteStatus w
        ∧ crosspointMuteStatus w' = crosspointMuteStatus w)
     ∨ (trace w' = trace w
                   ++ [line; checkFeedbacks (lit "channelMuteStatus")]
        ∧ virtualChannels w' = virtualChannels w
        ∧ presets w' = presets w
        ∧ crosspointMuteStatus w' = crosspointMuteStatus w
        ∧ ∃ (k : jsstring) (v : Number),
            channelMuteStatus w' = obj_set k v (channelMuteStatus w))
     ∨ (trace w' = trace w
                   ++ [line; checkFeedbacks (lit "crosspointMuteStatus")]
        ∧ virtualChannels w' = virtualChannels w
        ∧ presets w' = presets w
        ∧ channelMuteStatus w' = channelMuteStatus w
        ∧ ∃ (k : jsstring) (v : Number),
            crosspointMuteStatus w' = obj_set k v (crosspointMuteStatus w))).
Proof.
  cbv zeta.
  destruct (startsWith (lit "virtual_channels=") data) eqn:Hv.
  { rewrite processDeviceData_channels by done.
    split; [done|]. split; [done|]. right. left. done. }
  destruct (startsWith (lit "presets=") data) eqn:Hp.
  { rewrite processDeviceData_presets by done.
    split; [done|]. split; [done|]. right. right. left. done. }
  destruct (startsWith (lit "mute ") data) eqn:Hm.
  { destruct (re_mute (split 61 data).1) as [ch|] eqn:Hre.
    - rewrite (processDeviceData_mute _ _ ch) by done.
      split; [done|]. split; [done|]. do 3 right. left.
      repeat split; eauto.
    - rewrite processDeviceData_mute_mismatch by done.
      split; [done|]. split; [done|]. left. done. }
  destruct (startsWith (lit "crosspoint_mute ") data) eqn:Hx.
  { destruct (re_crosspoint (split 61 data).1) as [[i o]|] eqn:Hre.
    - rewrite (processDeviceData_crosspoint _ _ i o) by done.
      split; [done|]. split; [done|]. do 4 right.
      repeat split; eauto.
    - rewrite processDeviceData_crosspoint_mismatch by done.
      split; [done|]. split; [done|]. left. done. }
  rewrite processDeviceData_unrecognised
    by (unfold recognised; by rewrite Hv, Hp, Hm, Hx).
  split; [done|]. split; [done|]. left. done.
Qed.

Lemma obj_set_idemp (k : jsstring) (v : Number) (o : gmap (list N) Number) :
  obj_set k v (obj_set k v o) = obj_set k v o.
Proof. unfold obj_set. case_decide; [done|]. apply insert_insert_eq. Qed.

Lemma startsWith_presets_only data :
  startsWith (lit "presets=") data = true →
  startsWith (lit "virtual_channels=") data = false.
Proof.
  destruct data as [|x d]; [discriminate|].
  change (lit "presets=") with (112%N :: lit "resets=").
  rewrite startsWith_cons. intros [Hx _]%andb_true_iff.
  apply N.eqb_eq in Hx. by subst x.
Qed.

(** Close a goal stating that an effect is not in a list of other effects. *)
Ltac not_in_list :=
  repeat (apply not_elem_of_cons; split; [discriminate|]);
  apply not_elem_of_nil.

(** *** Every change of the mirrored state is announced *)

(** X1. Decoding a chunk never throws and never touches the socket, the
    configuration or the helpers. Its effects start with the debug log line
    and hold at most one notification after it; a change of the channel or
    preset list comes with [updateActions], a change of the channel mute
    map with the feedback check [channelMuteStatus], a change of the
    crosspoint mute map with the feedback check [crosspointMuteStatus]; the
    feedback and variable definitions are never rebuilt. *)
Theorem decode_announces_every_change data w :
  fst (processDeviceData data w) = Normal tt
  ∧ control (snd (processDeviceData data w)) = control w
  ∧ head (drop (length (trace w)) (trace (snd (processDeviceData data w))))
    = Some (log (lit "debug") (lit "Data received: " ++ data))
  ∧ length (trace (snd (processDeviceData data w))) ≤ length (trace w) + 2
  ∧ (virtualChannels (snd (processDeviceData data w)) ≠ virtualChannels w
     ∨ presets (snd (processDeviceData data w)) ≠ presets w →
     drop (length (trace w)) (trace (snd (processDeviceData data w)))
     = [log (lit "debug") (lit "Data received: " ++ data); updateActions])
  ∧ (channelMuteStatus (snd (processDeviceData data w)) ≠ channelMuteStatus w →
     drop (length (trace w)) (trace (snd (processDeviceData data w)))
     = [log (lit "debug") (lit "Data received: " ++ data);
        checkFeedbacks (lit "channelMuteStatus")])
  ∧ (crosspointMuteStatus (snd (processDeviceData data w))
     ≠ crosspointMuteStatus w →
     drop (length (trace w)) (trace (snd (processDeviceData data w)))
     = [log (lit "debug") (lit "Data received: " ++ data);
        checkFeedbacks (lit "crosspointMuteStatus")])
  ∧ (updateFeedbacks ∉ drop (length (trace w))
                         (trace (snd (processDeviceData data w))))
  ∧ (updateVariableDefinitions ∉ drop (length (trace w))
                                   (trace (snd (processDeviceData data w)))).
Proof.
  destruct (processDeviceData_cases data w) as (Hn & Hc & Hcases).
  cbv zeta in Hcases. split; [done|]. split; [done|].
  destruct Hcases as
    [(Ht & Hs)|[(Ht & ? & ? & ?)|[(Ht & ? & ? & ?)
    |[(Ht & ? & ? & ? & _)|(Ht & ? & ? & ? & _)]]]];
    rewrite Ht, drop_app_length, length_app; cbn [length head];
    (split; [done|]); (split; [lia|]).
  all: try (injection Hs as Hv Hp Hm Hx).
  all: repeat split;
    try (intros; first [reflexivity | exfalso; intuition congruence]);
    not_in_list.
Qed.

Lemma decode_announces_every_change_witness :
  channelMuteStatus (snd (processDeviceData chunk_1 w_connected))
  ≠ channelMuteStatus w_connected
  ∧ drop (length (trace w_connected))
      (trace (snd (processDeviceData chunk_1 w_connected)))
    = [log (lit "debug") (lit "Data received: " ++ chunk_1);
       checkFeedbacks (lit "channelMuteStatus")].
Proof.
  assert (channelMuteStatus (snd (processDeviceData chunk_1 w_connected))
          ≠ channelMuteStatus w_connected) as Hne.
  { intros H. apply (f_equal (λ m, m !! lit "A")) in H.
    vm_compute in H. discriminate H. }
  split; [exact Hne|].
  destruct (decode_announces_every_change chunk_1 w_connected)
    as (_ & _ & _ & _ & _ & Hm & _).
  exact (Hm Hne).
Defined.

(** *** Decoding is an idempotent overwrite *)

(** X2. Decoding the same chunk twice in a row leaves the channel list, the
    preset list and both mute maps as decoding it once does. *)
Theorem decode_twice_same_session data w :
  session (snd (processDeviceData data (snd (processDeviceData data w))))
  = session (snd (processDeviceData data w)).
Proof.
  destruct (startsWith (lit "virtual_channels=") data) eqn:Hv.
  { by rewrite !processDeviceData_channels. }
  destruct (startsWith (lit "presets=") data) eqn:Hp.
  { by rewrite !processDeviceData_presets. }
  destruct (startsWith (lit "mute ") data) eqn:Hm.
  { destruct (re_mute (split 61 data).1) as [ch|] eqn:Hre.
    - rewrite !(processDeviceData_mute _ _ ch) by done.
      unfold session. fields. by rewrite obj_set_idemp.
    - by rewrite !processDeviceData_mute_mismatch. }
  destruct (startsWith (lit "crosspoint_mute ") data) eqn:Hx.
  { destruct (re_crosspoint (split 61 data).1) as [[i o]|] eqn:Hre.
    - rewrite !(processDeviceData_crosspoint _ _ i o) by done.
      unfold session. fields. by rewrite obj_set_idemp.
    - by rewrite !processDeviceData_crosspoint_mismatch. }
  rewrite !processDeviceData_unrecognised
    by (unfold recognised; by rewrite Hv, Hp, Hm, Hx).
  done.
Qed.

(** *** The shape of the two lists *)

(** X3. After a chunk that starts with the channel-list prefix, the channel
    list has one entry more than the rest of the chunk has commas (so it is
    never empty: an empty reply gives one empty name), and every entry is
    free of commas and has no white space at either end. *)
Theorem channel_list_shape data w :
  startsWith (lit "virtual_channels=") data = true →
  length (virtualChannels (snd (processDeviceData data w)))
  = S (length (filter (λ u, u = 44%N)
                 (substring (length (lit "virtual_channels=")) data)))
  ∧ Forall (λ x, trimmed x ∧ 44%N ∉ x)
      (virtualChannels (snd (processDeviceData data w))).
Proof.
  intros Hv. rewrite processDeviceData_channels by done. fields.
  destruct (split_list_pieces 44
    (substring (length (lit "virtual_channels=")) data)) as [Hall Hlen].
  split; [by rewrite length_fmap|].
  apply Forall_fmap. eapply Forall_impl; [exact Hall|].
  intros x Hx. cbn. split; [apply trim_trimmed|].
  intros Hin. by apply Hx, trim_elem_of.
Qed.

Lemma channel_list_shape_witness :
  startsWith (lit "virtual_channels=") (lit "virtual_channels=") = true
  ∧ length (virtualChannels
              (snd (processDeviceData (lit "virtual_channels=") w_connected)))
    = 1.
Proof.
  split; [reflexivity|].
  apply (channel_list_shape (lit "virtual_channels=") w_connected).
  reflexivity.
Defined.

(** X4. After a chunk that starts with the preset-list prefix, the preset
    list has one entry more than the rest of the chunk has commas, and
    every entry is free of commas and of double quotes and has no white
    space at either end. *)
Theorem preset_list_shape data w :
  startsWith (lit "presets=") data = true →
  length (presets (snd (processDeviceData data w)))
  = S (length (filter (λ u, u = 44%N)
                 (substring (length (lit "presets=")) data)))
  ∧ Forall (λ x, trimmed x ∧ (44%N ∉ x) ∧ (34%N ∉ x))
      (presets (snd (processDeviceData data w))).
Proof.
  intros Hp. pose proof (startsWith_presets_only data Hp) as Hv.
  rewrite processDeviceData_presets by done. fields.
  destruct (split_list_pieces 44
    (substring (length (lit "presets=")) data)) as [Hall Hlen].
  split; [by rewrite length_fmap|].
  apply Forall_fmap. eapply Forall_impl; [exact Hall|].
  intros x Hx. cbn. split; [apply trim_trimmed|].
  split; intros Hin; apply trim_elem_of in Hin;
    unfold remove_quotes in Hin; apply list_elem_of_filter in Hin as [Hq Hin];
    [by apply Hx|done].
Qed.

Lemma preset_list_shape_witness :
  startsWith (lit "presets=") (lit "presets=" ++ dq ++ lit " A,B " ++ dq) = true
  ∧ Forall (λ x, trimmed x ∧ (44%N ∉ x) ∧ (34%N ∉ x))
      (presets (snd (processDeviceData
                       (lit "presets=" ++ dq ++ lit " A,B " ++ dq)
                       w_connected))).
Proof.
  split; [reflexivity|].
  apply (preset_list_shape (lit "presets=" ++ dq ++ lit " A,B " ++ dq)
           w_connected).
  reflexivity.
Defined.

(** *** Well-formed mute lines *)

Lemma match_lit_app (p r : jsstring) : match_lit p (p ++ r) = Some r.
Proof.
  induction p as [|x p IH]; [by destruct r|].
  cbn [app match_lit]. by rewrite N.eqb_refl.
Qed.

Lemma startsWith_app (p r : jsstring) : startsWith p (p ++ r) = true.
Proof.
  induction p as [|x p IH]; [by destruct r|].
  cbn [app]. by rewrite startsWith_cons, N.eqb_refl.
Qed.

Lemma exec_head {R} (m : jsstring → option R) (s : jsstring) (r : R) :
  m s = Some r → exec m s = Some r.
Proof. intros H. destruct s; cbn [exec]; by rewrite H. Qed.

(** The greedy group before a closing quote at the end of the text takes
    the whole text before that quote when it has no line terminator. *)
Lemma dot_star_to_last_quote {R} (f : jsstring → R) (cap s : jsstring) :
  one_line s →
  dot_star (λ cap r', match_lit dq r' ≫= λ _, Some (f cap)) cap (s ++ dq)
  = Some (f (cap ++ s)).
Proof.
  intros Hs. revert cap. induction Hs as [|x s Hx _ IH]; intros cap.
  - by rewrite app_nil_r.
  - cbn [app dot_star]. rewrite Hx, IH. by rewrite <- app_assoc.
Qed.

Lemma re_mute_quoted (name : jsstring) :
  one_line name → re_mute (lit "mute " ++ dq ++ name ++ dq) = Some name.
Proof.
  intros Hn. apply exec_head. unfold re_mute_at.
  rewrite (app_assoc (lit "mute ") dq), match_lit_app. cbn [mbind option_bind].
  apply (dot_star_to_last_quote (λ x, x) [] name Hn).
Qed.

Lemma mute_line_split (name value : jsstring) :
  61%N ∉ name → 61%N ∉ value →
  split 61 (mute_line name value)
  = (lit "mute " ++ dq ++ name ++ dq, [value]).
Proof.
  intros Hn Hv. unfold mute_line.
  replace (lit "mute " ++ dq ++ name ++ dq ++ lit "=" ++ value)
    with ((lit "mute " ++ dq ++ name ++ dq) ++ 61%N :: value)
    by (by rewrite <- !app_assoc).
  rewrite split_app_sep, (split_no_sep _ _ Hv); [done|].
  rewrite !not_elem_of_app. repeat split; [| |done|];
    apply (bool_decide_unpack _); vm_compute; exact I.
Qed.

Lemma processDeviceData_mute_line (name value : jsstring) w :
  61%N ∉ name → 61%N ∉ value → one_line name →
  processDeviceData (mute_line name value) w =
    (Normal tt,
     set_trace (trace w ++
       [log (lit "debug") (lit "Data received: " ++ mute_line name value);
        checkFeedbacks (lit "channelMuteStatus")])
       (set_channelMuteStatus
          (obj_set name (parseInt (Some value)) (channelMuteStatus w)) w)).
Proof.
  intros Hn Hv Hl.
  rewrite (processDeviceData_mute _ _ name).
  - by rewrite mute_line_split.
  - apply startsWith_app.
  - rewrite mute_line_split by done. by apply re_mute_quoted.
Qed.

(** X5. A line of the form mute, quoted name, equals sign, value, where the
    name has no equals sign and no line terminator and the value has no
    equals sign, is decoded as an update of exactly that channel: the
    channel mute map gets the entry name to [parseInt(value, 10)] (unless
    the name is the prototype key, which JavaScript ignores), nothing else
    of the mirrored state changes, and the channel feedback check is
    fired. The name may contain double quotes and spaces. *)
Theorem mute_line_sets_channel (name value : jsstring) w :
  61%N ∉ name → 61%N ∉ value → one_line name →
  fst (processDeviceData (mute_line name value) w) = Normal tt
  ∧ channelMuteStatus (snd (processDeviceData (mute_line name value) w))
    = obj_set name (parseInt (Some value)) (channelMuteStatus w)
  ∧ (name ≠ lit "__proto__" →
     channelMuteStatus (snd (processDeviceData (mute_line name value) w))
       !! name = Some (parseInt (Some value)))
  ∧ virtualChannels (snd (processDeviceData (mute_line name value) w))
    = virtualChannels w
  ∧ presets (snd (processDeviceData (mute_line name value) w)) = presets w
  ∧ crosspointMuteStatus (snd (processDeviceData (mute_line name value) w))
    = crosspointMuteStatus w
  ∧ trace (snd (processDeviceData (mute_line name value) w))
    = trace w ++
      [log (lit "debug") (lit "Data received: " ++ mute_line name value);
       checkFeedbacks (lit "channelMuteStatus")].
Proof.
  intros Hn Hv Hl. rewrite processDeviceData_mute_line by done. fields.
  repeat split. intros Hp. rewrite obj_set_other by done.
  apply lookup_insert_eq.
Qed.

Lemma mute_line_sets_channel_witness :
  (61%N ∉ lit "Main") ∧ (61%N ∉ lit "1" ++ crlf) ∧ one_line (lit "Main")
  ∧ lit "Main" ≠ lit "__proto__"
  ∧ channelMuteStatus
      (snd (processDeviceData (mute_line (lit "Main") (lit "1" ++ crlf))
              w_connected))
    !! lit "Main" = Some (parseInt (Some (lit "1" ++ crlf))).
Proof.
  assert (61%N ∉ lit "Main") as H1
    by (apply (bool_decide_unpack _); vm_compute; exact I).
  assert (61%N ∉ lit "1" ++ crlf) as H2
    by (apply (bool_decide_unpack _); vm_compute; exact I).
  assert (one_line (lit "Main")) as H3 by (repeat constructor).
  assert (lit "Main" ≠ lit "__proto__") as H4
    by (intros H; vm_compute in H; discriminate H).
  split; [exact H1|]. split; [exact H2|]. split; [exact H3|].
  split; [exact H4|].
  destruct (mute_line_sets_channel (lit "Main") (lit "1" ++ crlf)
              w_connected H1 H2 H3) as (_ & _ & Hk & _).
  exact (Hk H4).
Defined.

(** X6. Last write wins: after two well-formed mute lines for the same
    channel, the channel mute map is what the second line alone would have
    made it; the value of the first line is gone. *)
Theorem mute_last_write_wins (name v1 v2 : jsstring) w :
  61%N ∉ name → 61%N ∉ v1 → 61%N ∉ v2 → one_line name →
  channelMuteStatus
    (snd (processDeviceData (mute_line name v2)
            (snd (processDeviceData (mute_line name v1) w))))
  = channelMuteStatus (snd (processDeviceData (mute_line name v2) w)).
Proof.
  intros Hn H1 H2 Hl. rewrite !processDeviceData_mute_line by done. fields.
  unfold obj_set. case_decide; [done|]. apply insert_insert_eq.
Qed.

Lemma mute_last_write_wins_witness :
  channelMuteStatus
    (snd (processDeviceData (mute_line (lit "Main") (lit "0"))
            (snd (processDeviceData (mute_line (lit "Main") (lit "1"))
                    w_connected))))
  = channelMuteStatus
      (snd (processDeviceData (mute_line (lit "Main") (lit "0")) w_connected)).
Proof.
  apply (mute_last_write_wins (lit "Main") (lit "1") (lit "0") w_connected);
    first [ apply (bool_decide_unpack _); vm_compute; exact I
          | repeat constructor ].
Defined.

(** *** Well-formed crosspoint lines *)

Lemma dot_star_prefix {R} (k : jsstring → jsstring → option R)
    (res : jsstring → R) (s rest : jsstring) :
  one_line s →
  (∀ cap, dot_star k cap rest = Some (res cap)) →
  ∀ cap, dot_star k cap (s ++ rest) = Some (res (cap ++ s)).
Proof.
  intros Hs Hrest. induction Hs as [|x s Hx _ IH]; intros cap.
  - by rewrite app_nil_r.
  - cbn [app dot_star]. rewrite Hx, IH. by rewrite <- app_assoc.
Qed.

Lemma dot_star_None {R} (k : jsstring → jsstring → option R)
    (cap s : jsstring) :
  (∀ cap' s', s' `suffix_of` s → k cap' s' = None) →
  dot_star k cap s = None.
Proof.
  revert cap. induction s as [|x s IH]; intros cap Hk.
  - cbn [dot_star]. apply Hk. reflexivity.
  - cbn [dot_star]. rewrite IH.
    + destruct (isLineTerminator x); apply Hk; reflexivity.
    + intros cap' s' Hs'. apply Hk. by apply suffix_cons_r.
Qed.

Lemma dot_star_cons {R} (k : jsstring → jsstring → option R)
    (cap s : jsstring) (x : N) :
  dot_star k cap (x :: s) =
    if isLineTerminator x then k cap (x :: s)
    else match dot_star k (cap ++ [x]) s with
         | Some r => Some r
         | None => k cap (x :: s)
         end.
Proof. reflexivity. Qed.

Lemma quote_inside (o pre rest : jsstring) (x : N) :
  o ++ [34%N] = pre ++ 34%N :: x :: rest → 34%N ∈ o.
Proof.
  revert pre. induction o as [|y o IH]; intros pre H.
  - apply (f_equal length) in H. rewrite !length_app in H.
    cbn in H. lia.
  - destruct pre as [|p pre]; cbn in H.
    + injection H as -> _. by left.
    + injection H as _ H. right. by apply (IH pre).
Qed.

(** After the quote that opens the second group, no later start of the
    separator (quote, space, quote) leads to a match when the output name
    has no double quote. *)
Lemma crosspoint_no_later_split (output cap' s' : jsstring) :
  34%N ∉ output →
  s' `suffix_of` (32%N :: 34%N :: output ++ [34%N]) →
  (r2 ← match_lit (dq ++ lit " " ++ dq) s';
   dot_star (λ cap2 r3, match_lit dq r3 ≫= λ _, Some (cap', cap2)) [] r2)
  = None.
Proof.
  intros Ho [pre Hpre].
  destruct (match_lit (dq ++ lit " " ++ dq) s') as [r2|] eqn:E; [|done].
  cbn [mbind option_bind].
  apply match_lit_Some in E. subst s'.
  change (dq ++ lit " " ++ dq) with [34%N; 32%N; 34%N] in *.
  cbn [app] in Hpre.
  destruct pre as [|p1 [|p2 pre]]; cbn [app] in Hpre.
  - discriminate Hpre.
  - injection Hpre as _ Hpre.
    destruct output as [|y1 [|y2 o]]; cbn [app] in Hpre.
    + discriminate Hpre.
    + injection Hpre as _ <-. reflexivity.
    + injection Hpre as _ Hy _. exfalso. apply Ho. subst y2.
      right. by left.
  - injection Hpre as _ _ Hpre. exfalso. apply Ho.
    by apply (quote_inside output pre (34%N :: r2) 32).
Qed.

Lemma re_crosspoint_quoted (input output : jsstring) :
  one_line input → one_line output → 34%N ∉ output →
  re_crosspoint (lit "crosspoint_mute " ++ dq ++ input ++ dq ++ lit " "
                 ++ dq ++ output ++ dq)
  = Some (input, output).
Proof.
  intros Hi Ho Hq. apply exec_head. unfold re_crosspoint_at.
  rewrite (app_assoc (lit "crosspoint_mute ") dq), match_lit_app.
  cbn [mbind option_bind].
  apply (dot_star_prefix _ (λ cap, (cap, output)) input
           (dq ++ lit " " ++ dq ++ output ++ dq) Hi).
  intros cap.
  change (dq ++ lit " " ++ dq ++ output ++ dq)
    with (34%N :: 32%N :: 34%N :: output ++ [34%N]).
  rewrite dot_star_cons.
  change (isLineTerminator 34) with false. cbv iota.
  rewrite dot_star_None.
  - change (34%N :: 32%N :: 34%N :: output ++ [34%N])
      with ((dq ++ lit " " ++ dq) ++ output ++ dq).
    rewrite match_lit_app. cbn [mbind option_bind].
    apply (dot_star_to_last_quote (λ x, (cap, x)) [] output Ho).
  - intros cap' s' Hs'. by apply (crosspoint_no_later_split output).
Qed.

Lemma crosspoint_line_split (input output value : jsstring) :
  61%N ∉ input → 61%N ∉ output → 61%N ∉ value →
  split 61 (crosspoint_line input output value)
  = (lit "crosspoint_mute " ++ dq ++ input ++ dq ++ lit " "
     ++ dq ++ output ++ dq, [value]).
Proof.
  intros Hi Ho Hv. unfold crosspoint_line.
  replace (lit "crosspoint_mute " ++ dq ++ input ++ dq ++ lit " "
           ++ dq ++ output ++ dq ++ lit "=" ++ value)
    with ((lit "crosspoint_mute " ++ dq ++ input ++ dq ++ lit " "
           ++ dq ++ output ++ dq) ++ 61%N :: value)
    by (by rewrite <- !app_assoc).
  rewrite split_app_sep, (split_no_sep _ _ Hv); [done|].
  rewrite !not_elem_of_app. repeat split; try done;
    apply (bool_decide_unpack _); vm_compute; exact I.
Qed.

(** X7. A line of the form crosspoint_mute, quoted input name, space,
    quoted output name, equals sign, value, where no part has an equals
    sign, neither name has a line terminator and the output name has no
    double quote, is decoded as an update of the key made of the input
    name, a colon and the output name: the crosspoint mute map gets that
    key with [parseInt(value, 10)], nothing else of the mirrored state
    changes, and the crosspoint feedback check is fired. *)
Theorem crosspoint_line_sets_key (input output value : jsstring) w :
  61%N ∉ input → 61%N ∉ output → 61%N ∉ value →
  one_line input → one_line output → 34%N ∉ output →
  fst (processDeviceData (crosspoint_line input output value) w) = Normal tt
  ∧ crosspointMuteStatus
      (snd (processDeviceData (crosspoint_line input output value) w))
    = obj_set (input ++ lit ":" ++ output) (parseInt (Some value))
        (crosspointMuteStatus w)
  ∧ virtualChannels
      (snd (processDeviceData (crosspoint_line input output value) w))
    = virtualChannels w
  ∧ presets (snd (processDeviceData (crosspoint_line input output value) w))
    = presets w
  ∧ channelMuteStatus
      (snd (processDeviceData (crosspoint_line input output value) w))
    = channelMuteStatus w
  ∧ trace (snd (processDeviceData (crosspoint_line input output value) w))
    = trace w ++
      [log (lit "debug")
         (lit "Data received: " ++ crosspoint_line input output value);
       checkFeedbacks (lit "crosspointMuteStatus")].
Proof.
  intros Hi Ho Hv Hli Hlo Hq.
  rewrite (processDeviceData_crosspoint _ _ input output).
  - rewrite crosspoint_line_split by done. fields. done.
  - apply startsWith_app.
  - rewrite crosspoint_line_split by done. by apply re_crosspoint_quoted.
Qed.

Lemma crosspoint_line_sets_key_witness :
  crosspointMuteStatus
    (snd (processDeviceData
            (crosspoint_line (lit "In1") (lit "Out2") (lit "1" ++ crlf))
            w_connected))
  = obj_set (lit "In1" ++ lit ":" ++ lit "Out2")
      (parseInt (Some (lit "1" ++ crlf))) (crosspointMuteStatus w_connected).
Proof.
  apply (crosspoint_line_sets_key (lit "In1") (lit "Out2") (lit "1" ++ crlf)
           w_connected);
    first [ apply (bool_decide_unpack _); vm_compute; exact I
          | repeat constructor ].
Defined.

(** *** The value of a mute line *)





Lemma parseInt_not_numeric (value : jsstring) :
  (value = []
   ∨ ∃ (x : N) (r : jsstring), value = x :: r
       ∧ isStrWhiteSpaceChar x = false ∧ x ≠ 45%N ∧ x ≠ 43%N
       ∧ digitValue x = None) →
  parseInt (Some value) = NaN.
Proof.
  intros [->|(x & r & -> & Hws & Hm & Hp & Hd)]; [reflexivity|].
  unfold parseInt, ToString. cbn [trimStart]. rewrite Hws.
  apply N.eqb_neq in Hm, Hp. rewrite Hm, Hp.
  cbn [digits]. by rewrite Hd.
Qed.



(** X9. A well-formed mute line is not validated for its value: when the
    value is empty, or starts with a code unit that is neither white space
    nor a sign nor a decimal digit, the line still updates the channel and
    the value stored is NaN. *)
Theorem mute_value_not_numeric_stores_NaN (name value : jsstring) w :
  61%N ∉ name → 61%N ∉ value → one_line name → name ≠ lit "__proto__" →
  (value = []
   ∨ ∃ (x : N) (r : jsstring), value = x :: r
       ∧ isStrWhiteSpaceChar x = false ∧ x ≠ 45%N ∧ x ≠ 43%N
       ∧ digitValue x = None) →
  channelMuteStatus (snd (processDeviceData (mute_line name value) w))
  = <[name := NaN]> (channelMuteStatus w).
Proof.
  intros Hn Hv Hl Hp Hval.
  rewrite processDeviceData_mute_line by done. fields.
  by rewrite parseInt_not_numeric, obj_set_other.
Qed.

Lemma mute_value_not_numeric_stores_NaN_witness :
  channelMuteStatus
    (snd (processDeviceData (mute_line (lit "A") (lit "on")) w_connected))
  = <[lit "A" := NaN]> (channelMuteStatus w_connected).
Proof.
  apply (mute_value_not_numeric_stores_NaN (lit "A") (lit "on") w_connected).
  - apply (bool_decide_unpack _); vm_compute; exact I.
  - apply (bool_decide_unpack _); vm_compute; exact I.
  - repeat constructor.
  - intros H; vm_compute in H; discriminate H.
  - right. exists 111%N, (lit "n"). repeat split; discriminate.
Defined.

(** ** Further properties of the lifecycle *)

(** Decompose a membership hypothesis over appended and literal lists. *)
Ltac elim_in H :=
  repeat first [ rewrite elem_of_app in H
               | rewrite elem_of_cons in H
               | rewrite elem_of_nil in H ];
  destruct_or? H; try discriminate H; try contradiction.

Lemma sendCommand_effects cmd w :
  sendCommand cmd w
  = (Normal tt, set_trace (trace w ++ command_effects cmd w) w).
Proof. apply sendCommand_eq. Qed.

Lemma on_connect_configured w c :
  config w = Some c →
  on_connect w =
    (Normal tt,
     set_trace (trace w ++
       [updateStatus Ok None;
        log (lit "info") (lit "Connected to SoundStructure at "
                          ++ ToString (host c) ++ lit ":" ++ ToString (port c))]
       ++ command_effects (lit "get virtual_channels") w
       ++ command_effects (lit "get presets") w) w).
Proof.
  intros Hc. unfold on_connect, requestDeviceConfiguration.
  run_M. rewrite Hc. fields.
  rewrite sendCommand_effects. cbv beta iota.
  rewrite sendCommand_effects.
  destruct w. fields. unfold command_effects, connected. fields.
  rewrite <- !app_assoc. reflexivity.
Qed.

Lemma on_connect_unconfigured w :
  config w = None →
  on_connect w = (Throw, set_trace (trace w ++ [updateStatus Ok None]) w).
Proof.
  intros Hc. unfold on_connect. run_M. by rewrite Hc.
Qed.

Lemma init_trace c w :
  trace (snd (init c w)) =
    trace w ++ [updateStatus Ok None] ++ closing w
    ++ (if ready c
        then [socket_new (length (heap w)) (host c) (port c)] else [])
    ++ [updateActions; updateFeedbacks; updateVariableDefinitions].
Proof.
  rewrite init_eq. cbv zeta.
  rewrite (connectToDevice_eq _ c) by reflexivity. cbv zeta.
  rewrite closed_heap_length. unfold closing. fields.
  destruct (socket w), (ready c); fields; rewrite <- ?app_assoc; reflexivity.
Qed.

Lemma configUpdated_trace c w :
  trace (snd (configUpdated c w)) =
    trace w ++ closing w
    ++ (if ready c
        then [socket_new (length (heap w)) (host c) (port c)] else []).
Proof.
  rewrite configUpdated_eq, (connectToDevice_eq _ c) by reflexivity.
  cbv zeta. rewrite closed_heap_length. unfold closing. fields.
  destruct (socket w), (ready c); fields;
    rewrite <- ?app_assoc, ?app_nil_r; reflexivity.
Qed.

Lemma step_session_non_data o w :
  is_data_event o = false → session (snd (step o w)) = session w.
Proof.
  intros Ho. destruct o as [c| |c|cmd|a ev]; cbn [step].
  - rewrite init_eq. cbv zeta.
    rewrite (connectToDevice_eq _ c) by reflexivity. cbv zeta.
    by destruct (ready c).
  - by rewrite destroy_eq.
  - rewrite configUpdated_eq, (connectToDevice_eq _ c) by reflexivity.
    cbv zeta. by destruct (ready c).
  - by rewrite sendCommand_eq.
  - unfold deliver. destruct (heap w !! a) as [t|]; [|done].
    destruct (destroyed t); [done|].
    destruct ev as [|d|m|]; [|discriminate Ho|done|done].
    unfold bind, set_isConnected, write.
    match goal with |- context [on_connect ?w1] => set (w1' := w1) end.
    destruct (config w1') as [c|] eqn:Hc.
    + by rewrite (on_connect_configured _ c).
    + by rewrite on_connect_unconfigured.
Qed.

(** *** The mirrored state between data events *)

(** X10. Only data events change the mirrored state: across [init],
    [destroy], [configUpdated], [sendCommand] and the connect, error and
    close events of any socket, the channel list, the preset list and both
    mute maps stay exactly as they were; in particular nothing is cleared
    on disconnect, on reconnect or on teardown. *)
Theorem session_changes_only_on_data o w :
  is_data_event o = false → session (snd (step o w)) = session w.
Proof. apply step_session_non_data. Qed.

Lemma session_changes_only_on_data_witness :
  session (snd (step (op_socket 0 ev_close) w_one_channel))
  = session w_one_channel
  ∧ session (snd (step (op_configUpdated cfg_no_host) w_one_channel))
    = session w_one_channel.
Proof.
  split.
  - apply (session_changes_only_on_data (op_socket 0 ev_close) w_one_channel).
    reflexivity.
  - apply (session_changes_only_on_data (op_configUpdated cfg_no_host)
             w_one_channel).
    reflexivity.
Defined.

Lemma obj_set_keeps (k k' : jsstring) (v : Number) (o : gmap (list N) Number) :
  is_Some (o !! k') → is_Some (obj_set k v o !! k').
Proof.
  intros Hk. unfold obj_set. case_decide; [done|].
  destruct (decide (k = k')) as [->|Hne].
  - rewrite lookup_insert_eq. by eexists.
  - by rewrite lookup_insert_ne.
Qed.

Lemma obj_set_proto (k : jsstring) (v : Number) (o : gmap (list N) Number) :
  o !! lit "__proto__" = None → obj_set k v o !! lit "__proto__" = None.
Proof.
  intros Ho. unfold obj_set. case_decide; [done|].
  by rewrite lookup_insert_ne.
Qed.

Lemma step_maps_grow o w (k : jsstring) :
  (is_Some (channelMuteStatus w !! k) →
   is_Some (channelMuteStatus (snd (step o w)) !! k))
  ∧ (is_Some (crosspointMuteStatus w !! k) →
     is_Some (crosspointMuteStatus (snd (step o w)) !! k)).
Proof.
  destruct (is_data_event o) eqn:Ho.
  - destruct o as [| | | |a [|d| |]]; try discriminate Ho. cbn [step].
    unfold deliver. destruct (heap w !! a) as [t|]; [|done].
    destruct (destroyed t); [done|]. unfold on_data.
    destruct (processDeviceData_cases d w) as (_ & _ & Hcases).
    cbv zeta in Hcases.
    destruct Hcases as
      [(_ & Hs)|[(_ & _ & -> & ->)|[(_ & _ & -> & ->)
      |[(_ & _ & _ & -> & k1 & v1 & ->)|(_ & _ & _ & -> & k1 & v1 & ->)]]]];
      try done.
    + injection Hs as _ _ -> ->. done.
    + split; [apply obj_set_keeps|done].
    + split; [done|apply obj_set_keeps].
  - pose proof (step_session_non_data o w Ho) as Hs.
    injection Hs as _ _ -> ->. done.
Qed.

Lemma step_no_proto o w :
  channelMuteStatus w !! lit "__proto__" = None →
  crosspointMuteStatus w !! lit "__proto__" = None →
  channelMuteStatus (snd (step o w)) !! lit "__proto__" = None
  ∧ crosspointMuteStatus (snd (step o w)) !! lit "__proto__" = None.
Proof.
  intros H1 H2. destruct (is_data_event o) eqn:Ho.
  - destruct o as [| | | |a [|d| |]]; try discriminate Ho. cbn [step].
    unfold deliver. destruct (heap w !! a) as [t|]; [|done].
    destruct (destroyed t); [done|]. unfold on_data.
    destruct (processDeviceData_cases d w) as (_ & _ & Hcases).
    cbv zeta in Hcases.
    destruct Hcases as
      [(_ & Hs)|[(_ & _ & -> & ->)|[(_ & _ & -> & ->)
      |[(_ & _ & _ & -> & k1 & v1 & ->)|(_ & _ & _ & -> & k1 & v1 & ->)]]]];
      try done.
    + injection Hs as _ _ -> ->. done.
    + split; [by apply obj_set_proto|done].
    + split; [done|by apply obj_set_proto].
  - pose proof (step_session_non_data o w Ho) as Hs.
    injection Hs as _ _ -> ->. done.
Qed.

(** X11. Mute entries are never removed: a channel or crosspoint key that
    has an entry keeps an entry through every later sequence of host calls
    and socket events, including list replies that no longer name it,
    reconnects and [destroy]. *)
Theorem mute_entries_persist ops w (k : jsstring) :
  (is_Some (channelMuteStatus w !! k) →
   is_Some (channelMuteStatus (run ops w) !! k))
  ∧ (is_Some (crosspointMuteStatus w !! k) →
     is_Some (crosspointMuteStatus (run ops w) !! k)).
Proof.
  revert w. induction ops as [|o ops IH]; intros w; [done|].
  cbn [run]. destruct (IH (snd (step o w))) as [IH1 IH2].
  destruct (step_maps_grow o w k) as [S1 S2]. split; auto.
Qed.

Lemma mute_entries_persist_witness :
  is_Some (channelMuteStatus
             (run [op_socket 0 (ev_data (lit "virtual_channels=Ch1"));
                   op_configUpdated cfg_no_host; op_destroy]
                (run (data_events 0 [chunk_1]) w_connected))
           !! lit "A").
Proof.
  apply (mute_entries_persist
           [op_socket 0 (ev_data (lit "virtual_channels=Ch1"));
            op_configUpdated cfg_no_host; op_destroy]
           (run (data_events 0 [chunk_1]) w_connected) (lit "A")).
  vm_compute. by eexists.
Defined.

(** X12. The prototype key is never stored: in every state reachable from
    the constructor neither mute map has an entry for the key
    [__proto__], whatever lines the device sends. *)
Theorem proto_key_never_stored ops :
  channelMuteStatus (run ops constructor) !! lit "__proto__" = None
  ∧ crosspointMuteStatus (run ops constructor) !! lit "__proto__" = None.
Proof.
  assert (∀ w, channelMuteStatus w !! lit "__proto__" = None →
               crosspointMuteStatus w !! lit "__proto__" = None →
               channelMuteStatus (run ops w) !! lit "__proto__" = None
               ∧ crosspointMuteStatus (run ops w) !! lit "__proto__" = None)
    as Hrun.
  { induction ops as [|o ops IH]; intros w H1 H2; [done|].
    cbn [run]. destruct (step_no_proto o w H1 H2). by apply IH. }
  by apply Hrun.
Qed.

(** *** Sending commands *)

Lemma connected_fresh (h : list TCPHelper) c w :
  heap w = h ++ [fresh_socket c] → socket w = Some (length h) →
  connected w = false.
Proof.
  intros Hh Hs. unfold connected. rewrite Hs, Hh.
  by rewrite list_lookup_middle.
Qed.

Lemma connected_after_connectToDevice c w :
  config w = Some c → connected (snd (connectToDevice w)) = false.
Proof.
  intros Hc. rewrite (connectToDevice_eq _ c) by done. cbv zeta.
  destruct (ready c).
  - by apply (connected_fresh (closed_heap w) c).
  - done.
Qed.

(** X13. Right after [init], [configUpdated] or [destroy], whatever the
    state before, the instance is not connected: a command sent then is
    dropped with the error log line and is not kept for the connection
    that follows. *)
Theorem commands_dropped_until_connect c cmd w :
  connected (snd (init c w)) = false
  ∧ connected (snd (configUpdated c w)) = false
  ∧ connected (snd (destroy w)) = false
  ∧ new_effects (op_sendCommand cmd) (snd (init c w))
    = [log (lit "error") (lit "Socket not connected")]
  ∧ new_effects (op_sendCommand cmd) (snd (configUpdated c w))
    = [log (lit "error") (lit "Socket not connected")]
  ∧ new_effects (op_sendCommand cmd) (snd (destroy w))
    = [log (lit "error") (lit "Socket not connected")].
Proof.
  assert (∀ w', connected w' = false →
            new_effects (op_sendCommand cmd) w'
            = [log (lit "error") (lit "Socket not connected")]) as Hdrop.
  { intros w' Hw'. unfold new_effects. cbn [step].
    rewrite sendCommand_eq, Hw'. fields. rewrite drop_app_length.
    by destruct (socket w'). }
  assert (connected (snd (init c w)) = false) as Hi.
  { rewrite init_eq. cbv zeta.
    set (w0 := set_trace _ (set_config (Some c) w)).
    pose proof (connected_after_connectToDevice c w0 eq_refl) as H.
    unfold connected in *. exact H. }
  assert (connected (snd (configUpdated c w)) = false) as Hu.
  { rewrite configUpdated_eq. by apply (connected_after_connectToDevice c). }
  assert (connected (snd (destroy w)) = false) as Hd
    by (by rewrite destroy_eq).
  auto 10.
Qed.



Lemma lifecycle_inv_socket w a :
  lifecycle_inv w → socket w = Some a →
  ∃ t, heap w !! a = Some t ∧ destroyed t = false.
Proof.
  unfold lifecycle_inv. intros Hinv Hs. rewrite Hs in Hinv.
  destruct Hinv as (_ & h & t & Hh & -> & _ & Ht).
  exists t. split; [|done]. rewrite Hh. apply list_lookup_middle. done.
Qed.

Lemma command_effects_send cmd w a (m : jsstring) :
  lifecycle_inv w →
  socket_send a m ∈ command_effects cmd w →
  m = cmd ++ crlf ∧ socket w = Some a
  ∧ ∃ t, heap w !! a = Some t ∧ destroyed t = false ∧ isConnected t = true.
Proof.
  intros Hinv. unfold command_effects.
  destruct (socket w) as [b|] eqn:Hs; [|intros H; elim_in H].
  destruct (connected w) eqn:Hc; intros H; elim_in H.
  injection H as -> ->. split; [done|]. split; [done|].
  destruct (lifecycle_inv_socket w b Hinv Hs) as (t & Ht & Hd).
  exists t. unfold connected in Hc. rewrite Hs, Ht in Hc. done.
Qed.

(** *** No turn throws *)

(** X14. In every state reachable from the constructor, every turn
    completes normally: no lifecycle call, command or socket listener
    throws. In particular the connect listener always finds a stored
    configuration to read host and port from. *)
Theorem no_turn_throws ops o :
  fst (step o (run ops constructor)) = Normal tt.
Proof.
  pose proof (run_inv ops constructor lifecycle_inv_constructor) as Hinv.
  set (w := run ops constructor) in *.
  destruct o as [c| |c|cmd|a ev]; cbn [step].
  - by rewrite init_eq.
  - by rewrite destroy_eq.
  - by rewrite configUpdated_eq, (connectToDevice_eq _ c).
  - by rewrite sendCommand_eq.
  - unfold deliver. destruct (heap w !! a) as [t|] eqn:Ha; [|done].
    destruct (destroyed t) eqn:Ht; [done|].
    destruct ev as [|d|m|]; [| |done|done].
    + destruct (lifecycle_inv_live w a t Hinv Ha Ht) as [_ [c Hc]].
      unfold bind, set_isConnected, write.
      by rewrite (on_connect_configured _ c).
    + apply (processDeviceData_cases d w).
Qed.

(** *** Where commands go *)

(** X15. In every state reachable from the constructor, whatever a turn
    sends is a command followed by the line terminator, and it is sent to
    the socket [this.socket] holds, which is neither destroyed nor
    disconnected when the turn ends. Only [sendCommand] and the connect
    listener send; no other turn writes to a socket. *)
Theorem sends_reach_live_socket ops o a (m : jsstring) :
  socket_send a m ∈ new_effects o (run ops constructor) →
  (∃ cmd, m = cmd ++ crlf)
  ∧ socket (snd (step o (run ops constructor))) = Some a
  ∧ (∃ t, heap (snd (step o (run ops constructor))) !! a = Some t
          ∧ destroyed t = false ∧ isConnected t = true)
  ∧ ((∃ cmd, o = op_sendCommand cmd) ∨ o = op_socket a ev_connect).
Proof.
  pose proof (run_inv ops constructor lifecycle_inv_constructor) as Hinv.
  set (w := run ops constructor) in *. unfold new_effects.
  destruct o as [c| |c|cmd|b ev]; cbn [step].
  - rewrite init_trace, drop_app_length. intros H.
    unfold closing in H. destruct (socket w), (ready c); elim_in H.
  - rewrite destroy_eq. fields. rewrite drop_app_length. intros H.
    unfold closing in H. destruct (socket w); elim_in H.
  - rewrite configUpdated_trace, drop_app_length. intros H.
    unfold closing in H. destruct (socket w), (ready c); elim_in H.
  - rewrite sendCommand_effects. fields. rewrite drop_app_length. intros H.
    destruct (command_effects_send cmd w a m Hinv H) as (-> & Hs & Ht).
    eauto 10.
  - unfold deliver. destruct (heap w !! b) as [t|] eqn:Hb;
      [|rewrite drop_all; intros H; elim_in H].
    destruct (destroyed t) eqn:Ht; [rewrite drop_all; intros H; elim_in H|].
    destruct ev as [|d|msg|].
    + destruct (lifecycle_inv_live w b t Hinv Hb Ht) as [Hs [c Hc]].
      unfold bind, set_isConnected, write.
      match goal with |- context [on_connect ?w1] => set (w1' := w1) end.
      assert (lifecycle_inv w1') as Hinv1 by (by apply lifecycle_inv_flag).
      rewrite (on_connect_configured _ c) by done. fields.
      rewrite drop_app_length. intros H.
      rewrite !elem_of_cons, elem_of_app in H.
      destruct H as [H|[H|[H|H]]]; [discriminate H|discriminate H|..];
        destruct (command_effects_send _ w1' a m Hinv1 H) as (-> & Hs1 & Ht1);
        (split; [eauto|]); (split; [done|]); (split; [done|]);
        right; unfold w1' in Hs1; cbn in Hs1; congruence.
    + unfold on_data.
      destruct (processDeviceData_cases d w) as (_ & _ & Hcases).
      cbv zeta in Hcases.
      destruct Hcases as
        [(Htr & _)|[(Htr & _)|[(Htr & _)|[(Htr & _)|(Htr & _)]]]];
        rewrite Htr, drop_app_length; intros H; elim_in H.
    + unfold on_error. run_M. rewrite <- app_assoc, drop_app_length.
      intros H. elim_in H.
    + unfold on_close. run_M. rewrite <- app_assoc, drop_app_length.
      intros H. elim_in H.
Qed.

Lemma sends_reach_live_socket_witness :
  socket_send 0 (lit "get presets" ++ crlf)
    ∈ new_effects (op_socket 0 ev_connect) (run [op_init cfg_example] constructor)
  ∧ socket (snd (step (op_socket 0 ev_connect)
                   (run [op_init cfg_example] constructor))) = Some 0.
Proof.
  assert (socket_send 0 (lit "get presets" ++ crlf)
            ∈ new_effects (op_socket 0 ev_connect)
                (run [op_init cfg_example] constructor)) as Hin.
  { vm_compute. do 4 right. left. }
  split; [exact Hin|].
  apply (sends_reach_live_socket [op_init cfg_example]
           (op_socket 0 ev_connect) 0 (lit "get presets" ++ crlf) Hin).
Defined.

(** ** Replies with a line terminator, and round trips *)

Lemma trimStart_blank_app (p s : jsstring) :
  blank p → trimStart (p ++ s) = trimStart s.
Proof.
  induction 1 as [|x p Hx _ IH]; [done|].
  cbn [app trimStart]. by rewrite Hx.
Qed.

Lemma trimEnd_app_blank (s q : jsstring) :
  blank q → trimEnd (s ++ q) = trimEnd s.
Proof.
  intros Hq. unfold trimEnd. rewrite rev_app_distr.
  rewrite trimStart_blank_app; [done|].
  unfold blank. rewrite rev_is_reverse. by apply Forall_reverse.
Qed.

Lemma trim_app_blank (s q : jsstring) : blank q → trim (s ++ q) = trim s.
Proof.
  intros Hq. unfold trim. induction s as [|x s IH].
  - cbn [app]. rewrite <- (app_nil_r q) at 1.
    by rewrite trimStart_blank_app.
  - cbn [app trimStart]. destruct (isStrWhiteSpaceChar x); [exact IH|].
    by apply (trimEnd_app_blank (x :: s)).
Qed.

Lemma trim_of_trimmed (s : jsstring) : trimmed s → trim s = s.
Proof.
  intros [Hh Hl]. unfold trim.
  assert (trimStart s = s) as ->.
  { destruct s as [|x s]; [done|]. cbn [trimStart].
    by rewrite (Hh x eq_refl). }
  unfold trimEnd.
  assert (trimStart (rev s) = rev s) as ->.
  { destruct (rev s) as [|x r] eqn:E; [done|]. cbn [trimStart].
    rewrite (Hl x); [done|].
    rewrite <- (rev_involutive s), E, rev_is_reverse, last_reverse. done. }
  apply rev_involutive.
Qed.

Lemma split_list_cons (sep x : N) (s : jsstring) :
  split_list sep (x :: s) =
    if (x =? sep)%N then [] :: split_list sep s
    else match split_list sep s with
         | y :: ys => (x :: y) :: ys
         | [] => [[x]]
         end.
Proof.
  unfold split_list. rewrite split_cons.
  by destruct (split sep s), (x =? sep)%N.
Qed.

Lemma split_list_app_tail (sep : N) (s q : jsstring) :
  sep ∉ q →
  ∃ (front : list jsstring) (lst : jsstring),
    split_list sep s = front ++ [lst]
    ∧ split_list sep (s ++ q) = front ++ [lst ++ q].
Proof.
  intros Hq. induction s as [|x s (front & lst & H1 & H2)].
  - exists [], []. unfold split_list. cbn [app].
    by rewrite (split_no_sep _ _ Hq).
  - cbn [app]. rewrite !split_list_cons, H1, H2.
    destruct (x =? sep)%N.
    + by exists ([] :: front), lst.
    + destruct front as [|y front]; cbn [app].
      * by exists [], (x :: lst).
      * by exists ((x :: y) :: front), lst.
Qed.

Lemma blank_no_comma_or_quote (q : jsstring) :
  blank q → (44%N ∉ q) ∧ blank (remove_quotes q).
Proof.
  intros Hq. split.
  - intros Hin. unfold blank in Hq. rewrite Forall_forall in Hq.
    specialize (Hq _ Hin). discriminate Hq.
  - unfold blank, remove_quotes in *. rewrite Forall_forall in *.
    intros u [_ Hu]%list_elem_of_filter. by apply Hq.
Qed.

Lemma remove_quotes_app (s q : jsstring) :
  remove_quotes (s ++ q) = remove_quotes s ++ remove_quotes q.
Proof. unfold remove_quotes. apply filter_app. Qed.

(** X17. White space at the end of a list reply, such as its line
    terminator, does not end up in the last name: a channel-list or
    preset-list reply followed by any run of white space is decoded to the
    same list as the reply alone. *)
Theorem list_reply_terminator_ignored (body q : jsstring) w :
  blank q →
  virtualChannels
    (snd (processDeviceData (lit "virtual_channels=" ++ body ++ q) w))
  = virtualChannels
      (snd (processDeviceData (lit "virtual_channels=" ++ body) w))
  ∧ presets (snd (processDeviceData (lit "presets=" ++ body ++ q) w))
    = presets (snd (processDeviceData (lit "presets=" ++ body) w)).
Proof.
  intros Hq. destruct (blank_no_comma_or_quote q Hq) as [Hc Hrq].
  destruct (split_list_app_tail 44 body q Hc) as (front & lst & H1 & H2).
  split.
  - rewrite !processDeviceData_channels by apply startsWith_app. fields.
    unfold substring. rewrite !drop_app_length, H1, H2, !fmap_app.
    cbn [fmap list_fmap]. by rewrite trim_app_blank.
  - rewrite !processDeviceData_presets
      by first [apply startsWith_app
               |apply startsWith_presets_only, startsWith_app].
    fields. unfold substring.
    rewrite !drop_app_length, H1, H2, !fmap_app.
    cbn [fmap list_fmap]. by rewrite remove_quotes_app, trim_app_blank.
Qed.

Lemma list_reply_terminator_ignored_witness :
  virtualChannels
    (snd (processDeviceData (lit "virtual_channels=" ++ lit "A, B" ++ crlf)
            w_connected))
  = virtualChannels
      (snd (processDeviceData (lit "virtual_channels=" ++ lit "A, B")
              w_connected)).
Proof.
  apply (list_reply_terminator_ignored (lit "A, B") crlf w_connected).
  repeat constructor.
Defined.

Lemma split_list_join (sep : N) (names : list jsstring) :
  names ≠ [] → Forall (λ n, sep ∉ n) names →
  split_list sep (join sep names) = names.
Proof.
  intros Hne Hall. induction Hall as [|x names Hx Hall IH]; [done|].
  destruct names as [|y names].
  - cbn [join]. unfold split_list. by rewrite (split_no_sep _ _ Hx).
  - change (join sep (x :: y :: names))
      with (x ++ sep :: join sep (y :: names)).
    unfold split_list in *. rewrite (split_app_sep _ _ _ Hx).
    destruct (split sep (join sep (y :: names))) as [z zs].
    cbn [fst snd]. f_equal. by apply IH.
Qed.

Lemma remove_quotes_quoted (name : jsstring) :
  34%N ∉ name → remove_quotes (quoted name) = name.
Proof.
  intros Hn. unfold quoted. rewrite !remove_quotes_app.
  change (remove_quotes dq) with (@nil N). rewrite app_nil_r. cbn [app].
  unfold remove_quotes. induction name as [|x name IH]; [done|].
  apply not_elem_of_cons in Hn as [Hx Hn].
  rewrite filter_cons_True by done. by rewrite IH.
Qed.

(** X18. Round trip of the list replies. For a non-empty list of names
    that have no comma and no white space at either end, decoding the
    channel-list reply made of the names joined by commas gives back
    exactly these names, in order; and when the names have no double quote
    either, decoding the preset-list reply made of the quoted names joined
    by commas gives them back as well. *)
Theorem list_reply_round_trip (names : list jsstring) w :
  names ≠ [] →
  Forall (λ n, (44%N ∉ n) ∧ trimmed n) names →
  virtualChannels
    (snd (processDeviceData (lit "virtual_channels=" ++ join 44 names) w))
  = names
  ∧ (Forall (λ n, 34%N ∉ n) names →
     presets
       (snd (processDeviceData
               (lit "presets=" ++ join 44 (quoted <$> names)) w))
     = names).
Proof.
  intros Hne Hall. split.
  - rewrite processDeviceData_channels by apply startsWith_app. fields.
    unfold substring. rewrite drop_app_length, split_list_join; [|done|].
    + induction Hall as [|x l [_ Hx] _ IH]; [done|].
      cbn [fmap list_fmap]. rewrite (trim_of_trimmed _ Hx). f_equal.
      destruct l; [done|]. by apply IH.
    + eapply Forall_impl; [exact Hall|]. by intros n [Hn _].
  - intros Hq.
    rewrite processDeviceData_presets
      by first [apply startsWith_app
               |apply startsWith_presets_only, startsWith_app].
    fields. unfold substring. rewrite drop_app_length, split_list_join.
    + clear Hne. induction Hall as [|x l [_ Hx] _ IH]; [done|].
      apply Forall_cons in Hq as [Hqx Hq].
      cbn [fmap list_fmap].
      rewrite (remove_quotes_quoted _ Hqx), (trim_of_trimmed _ Hx).
      f_equal. by apply IH.
    + by destruct names.
    + apply Forall_fmap. eapply Forall_impl; [exact Hall|].
      intros n [Hn _] H. unfold quoted, dq in H. elim_in H.
Qed.

Lemma list_reply_round_trip_witness :
  virtualChannels
    (snd (processDeviceData
            (lit "virtual_channels=" ++ join 44 [lit "Ch1"; lit "Mic 2"])
            w_connected))
  = [lit "Ch1"; lit "Mic 2"]
  ∧ presets
      (snd (processDeviceData
              (lit "presets=" ++ join 44 (quoted <$> [lit "Ch1"; lit "Mic 2"]))
              w_connected))
    = [lit "Ch1"; lit "Mic 2"].
Proof.
  assert (Forall (λ n : jsstring, (44%N ∉ n) ∧ trimmed n)
            [lit "Ch1"; lit "Mic 2"]) as Hall.
  { repeat constructor;
      first [ apply (bool_decide_unpack _); vm_compute; exact I
            | intros u [= <-]; reflexivity ]. }
  destruct (list_reply_round_trip [lit "Ch1"; lit "Mic 2"] w_connected)
    as [Hv Hp]; [discriminate|exact Hall|].
  split; [exact Hv|]. apply Hp.
  repeat constructor; apply (bool_decide_unpack _); vm_compute; exact I.
Defined.
